(** * Template robustness under mixed isolation-level allocations

    A shallow embedding of [template_robustness/algorithm.py]: the conflict
    algebra on operations, the connectedness propagator, the
    pt-conflict-graph builder, the cycle validator, the robustness oracle
    [is_robust] and the greedy optimizer [optimal_alloc].

    Python exceptions ([AssertionError] of the sanity check in
    [get_connectedness], [KeyError] of a dictionary lookup) are values of an
    error monad; [for] loops with [return], [break] and [continue] are a
    loop combinator over the list the loop walks. *)

From stdpp Require Import gmap strings list fin_maps.

(* [naive_solver] clears hypotheses it has already used up. *)
#[local] Set Warnings "-clear-no-such-hyp".

Local Open Scope Z_scope.
Local Open Scope string_scope.

(** ** Enumerations *)

Inductive IsolationLevel := READ_COMMITTED | SNAPSHOT_ISOLATION | SERIALIZABLE.

(** [Conn]: connected to o1, connected to p1, or not connected. *)
Inductive Conn := O | P | N.

Inductive InOut := IN | OUT.

#[global] Instance IsolationLevel_eq_dec : EqDecision IsolationLevel.
Proof. solve_decision. Defined.
#[global] Instance Conn_eq_dec : EqDecision Conn.
Proof. solve_decision. Defined.
#[global] Instance InOut_eq_dec : EqDecision InOut.
Proof. solve_decision. Defined.

(** The values the source gives the members of the enumerations. *)
Definition IsolationLevel_value (il : IsolationLevel) : Z :=
  match il with
  | READ_COMMITTED => 1
  | SNAPSHOT_ISOLATION => 2
  | SERIALIZABLE => 3
  end.

Definition Conn_value (c : Conn) : positive :=
  match c with O => 1 | P => 2 | N => 3 end%positive.

Definition Conn_of_value (p : positive) : option Conn :=
  match p with
  | 1 => Some O | 2 => Some P | 3 => Some N | _ => None
  end%positive.

#[global] Instance Conn_countable : Countable Conn.
Proof.
  apply (inj_countable Conn_value Conn_of_value).
  intros []; reflexivity.
Defined.

(** ** Operations, templates, allocations *)

Record Operation := mkOperation {
  variable : string;
  relation : string;
  readset : gset string;
  writeset : gset string
}.

#[global] Instance Operation_eq_dec : EqDecision Operation.
Proof. solve_decision. Defined.

Record Template := mkTemplate {
  name : string;
  operations : list Operation
}.

(** [Template.__eq__]: the field [operations] is declared with
    [compare=False], so two templates are equal when their names are. *)
Definition Template_eqb (t u : Template) : bool :=
  bool_decide (name t = name u).

(** A [set[Template]], given by the order in which it is iterated. *)
Record TemplateSet := mkTemplateSet {
  templates : list Template
}.

(** The dictionary of an allocation is keyed by templates, which hash and
    compare by name. *)
Record Allocation := mkAllocation {
  templateset : TemplateSet;
  mapping : gmap string IsolationLevel
}.

Record GraphNode := mkGraphNode {
  template : Template;
  operation : Operation;
  conn : Conn;
  k : InOut
}.

(** [GraphNode.__eq__]: field by field, with the templates' own equality. *)
Definition GraphNode_eqb (a b : GraphNode) : bool :=
  Template_eqb (template a) (template b)
  && bool_decide (operation a = operation b)
  && bool_decide (conn a = conn b)
  && bool_decide (k a = k b).

(** ** Conflict algebra *)

Definition is_rw_conflicting (self other : Operation) : bool :=
  bool_decide (relation self = relation other)
  && bool_decide (0 < Z.of_nat (size (readset self ∩ writeset other))).

Definition is_wr_conflicting (self other : Operation) : bool :=
  bool_decide (relation self = relation other)
  && bool_decide (0 < Z.of_nat (size (writeset self ∩ readset other))).

Definition is_ww_conflicting (self other : Operation) : bool :=
  bool_decide (relation self = relation other)
  && bool_decide (0 < Z.of_nat (size (writeset self ∩ writeset other))).

Definition is_conflicting (self other : Operation) : bool :=
  is_rw_conflicting self other
  || is_wr_conflicting self other
  || is_ww_conflicting self other.

(** ** Exceptions and loops *)

Inductive PyError := AssertionError | KeyError.

Inductive Result (A : Type) :=
| Ok (a : A)
| Raise (e : PyError).
Arguments Ok {A} a.
Arguments Raise {A} e.

Definition rbind {A B} (m : Result A) (f : A → Result B) : Result B :=
  match m with
  | Ok a => f a
  | Raise e => Raise e
  end.

Notation "'let!' x ':=' m 'in' f" := (rbind m (fun x => f))
  (at level 10, x pattern, m at level 100, f at level 200).

(** What the body of a loop asks for when it ends: the next element
    ([continue], or falling off the end of the body), leaving the loop
    ([break]), or leaving the function ([return r]). *)
Inductive Ctl (R : Type) :=
| Next
| Break
| Return (r : R).
Arguments Next {R}.
Arguments Break {R}.
Arguments Return {R} r.

(** [for x in l: body]. [Ok None]: the loop ended and the function goes on
    after it; [Ok (Some r)]: the function returned [r] inside the loop. *)
Fixpoint for_each {A R} (body : A → Result (Ctl R)) (l : list A)
  : Result (option R) :=
  match l with
  | [] => Ok None
  | x :: l' =>
      match body x with
      | Raise e => Raise e
      | Ok Next => for_each body l'
      | Ok Break => Ok None
      | Ok (Return r) => Ok (Some r)
      end
  end.

(** A statement inside a loop body that may itself have returned. *)
Definition or_next {R} (m : Result (option R)) : Result (Ctl R) :=
  let! r := m in
  match r with
  | Some v => Ok (Return v)
  | None => Ok Next
  end.

(** [itertools.product(l1, l2)]. *)
Definition product {A B} (l1 : list A) (l2 : list B) : list (A * B) :=
  x ← l1; y ← l2; [(x, y)].

(** ** Connectedness propagator *)

Definition get_connectedness (target_op o : Operation) (co : Conn)
    (p : Operation) (cp : Conn) (h : Z) : Result (gset Conn) :=
  let result : gset Conn := ∅ in
  let result :=
    if bool_decide (variable target_op = variable o)
    then result ∪ {[co]} else result in
  let result :=
    if bool_decide (variable target_op = variable p)
    then result ∪ {[cp]} else result in
  let result :=
    if bool_decide (size result = 0%nat) then {[N]} else result in
  let result :=
    if bool_decide (h = 1) then
      let result :=
        if bool_decide (O ∈ result) then result ∪ {[P]} else result in
      if bool_decide (P ∈ result) then result ∪ {[O]} else result
    else result in
  if bool_decide ((h = 1 ∧ result ∈ [ ({[N]} : gset Conn); {[O; P]} ])
                  ∨ (h = 2 ∧ result ∈ [ ({[N]} : gset Conn); {[O]}; {[P]} ]))
  then Ok result
  else Raise AssertionError.

(** ** The pt-conflict-graph *)

Definition is_node_valid (node : GraphNode) (o1 p1 : Operation)
    (t1 : Template) : bool :=
  if bool_decide (conn node = N) then true
  else
    (* Conditions (1) and (2) *)
    negb (existsb (fun op1 =>
      ((bool_decide (variable op1 = variable o1) && bool_decide (conn node = O))
       || (bool_decide (variable op1 = variable p1) && bool_decide (conn node = P)))
      && existsb (fun op =>
           bool_decide (variable op = variable (operation node))
           && is_conflicting op1 op)
         (operations (template node)))
      (operations t1)).

Definition is_edge_valid (node1 node2 : GraphNode) (h : Z) : bool :=
  if bool_decide (k node1 = OUT) && bool_decide (k node2 = IN) then
    (* Condition (3) *)
    bool_decide (conn node1 = conn node2)
    && is_conflicting (operation node1) (operation node2)
  else if bool_decide (k node1 = IN) && bool_decide (k node2 = OUT)
          && Template_eqb (template node1) (template node2) then
    (* Condition (4) *)
    (bool_decide (variable (operation node1) ≠ variable (operation node2))
     && bool_decide ((conn node1, conn node2) ∈ [(O, P); (O, N); (N, N); (N, P)]))
    (* Condition (5) *)
    || (bool_decide (variable (operation node1) = variable (operation node2))
        && bool_decide (conn node1 = conn node2))
    (* Condition (6) *)
    || (bool_decide (variable (operation node1) = variable (operation node2))
        && bool_decide (conn node1 = O) && bool_decide (conn node2 = P)
        && bool_decide (h = 1))
  else false.

(** The part of networkx the program uses: [nx.Graph()], [add_node],
    [add_edge], the views [nodes] and [edges] in the order they are iterated,
    and [nx.transitive_closure(g, reflexive=...)]. *)
Class NxGraph := {
  Graph : Type;
  nx_Graph : Graph;
  add_node : GraphNode → Graph → Graph;
  add_edge : GraphNode → GraphNode → Graph → Graph;
  nodes : Graph → list GraphNode;
  edges : Graph → list (GraphNode * GraphNode);
  transitive_closure : Graph → bool → Graph
}.

Section Graphs.
Context `{NxGraph}.

Definition pt_conflict_graph (o1 p1 : Operation) (t1 : Template) (h : Z)
    (template_set : TemplateSet) : Graph :=
  let graph := nx_Graph in
  (* Create nodes *)
  let graph :=
    foldl (fun g node =>
             if is_node_valid node o1 p1 t1 then add_node node g else g)
      graph
      (t ← templates template_set; o ← operations t;
       c ← [O; P; N]; k ← [IN; OUT]; [mkGraphNode t o c k]) in
  (* Add edges *)
  foldl (fun g '(node1, node2) =>
           if is_edge_valid node1 node2 h then add_edge node1 node2 g else g)
    graph (product (nodes graph) (nodes graph)).

(** ** Closing the sequence from t2 to tn *)

Definition reachable (t2 : Template) (o2 p2 : Operation) (co2 : Conn)
    (tn : Template) (on pn : Operation) (cpn : Conn) (h : Z) (rtc : Graph)
  : bool :=
  (* Case 1: n = 2 => t2 = tn *)
  if Template_eqb t2 tn && bool_decide (o2 = on) && bool_decide (p2 = pn)
     && ((bool_decide (co2 = P) && bool_decide (cpn = O))
         || (bool_decide (h = 1) && bool_decide (co2 = O)
             && bool_decide (cpn = P)))
  then true
  (* Case 2: n = 3 => direct conflict between t2 and t3 = tn *)
  else if is_conflicting o2 pn
          && (bool_decide (co2 = cpn)
              || (bool_decide (h = 1) && bool_decide (co2 = O)
                  && bool_decide (cpn = P)))
  then true
  (* Case 3: n > 3 => use the transitive closure *)
  else
    existsb (fun '(nstart, nstop) =>
      bool_decide (k nstart = IN) && bool_decide (k nstop = OUT)
      && is_conflicting (operation nstart) o2
      && is_conflicting (operation nstop) pn
      && bool_decide (conn nstart = co2) && bool_decide (conn nstop = cpn))
    (edges rtc).
End Graphs.

(** ** Cycle validity *)

(** [alloc.mapping[t]]. *)
Definition lookup_mapping (alloc : Allocation) (t : Template)
  : Result IsolationLevel :=
  match mapping alloc !! name t with
  | Some il => Ok il
  | None => Raise KeyError
  end.

(** [alloc.mapping[t] == il]. *)
Definition mapping_is (alloc : Allocation) (t : Template)
    (il : IsolationLevel) : Result bool :=
  let! l := lookup_mapping alloc t in Ok (bool_decide (l = il)).

(** Python's [a and b]: [b] is evaluated only when [a] is true. *)
Definition and_then (a b : Result bool) : Result bool :=
  let! x := a in if x then b else Ok false.

(** The inner loop the conditions (2), (3), (7) and (8) share: walk the
    operations of [t]; at one in [conflict] with [op1], compute its
    connectedness and return [False] when it meets [op1_conns]. *)
Definition connected_scan (conflict : Operation → Operation → bool)
    (op1 : Operation) (op1_conns : gset Conn)
    (t : Template) (o : Operation) (co : Conn) (p : Operation) (cp : Conn)
    (h : Z) : Result (option bool) :=
  for_each (fun op2 =>
    if conflict op1 op2 then
      let! op2_conns := get_connectedness op2 o co p cp h in
      if bool_decide (0 < Z.of_nat (size (op1_conns ∩ op2_conns)))
      then Ok (Return false)  (* Connected! *)
      else Ok Next
    else Ok Next)
  (operations t).

(** Each condition yields [Some false] when the function returns [False]
    there and [None] when control goes on to the next condition. *)

(** Conditions (2) and (3): no ww conflict between the prefix of t1 and
    either t2 or tn; under SI or SSI, nor with the postfix. *)
Definition condition_2_3 (t1 : Template) (o1 p1 : Operation)
    (t2 : Template) (o2 p2 : Operation) (co2 : Conn)
    (tn : Template) (on pn : Operation) (cpn : Conn)
    (h : Z) (alloc : Allocation) : Result (option bool) :=
  for_each (fun op1 =>
    let! op1_conns := get_connectedness op1 o1 O p1 P h in
    let! r :=
      (if bool_decide (N ∉ op1_conns) then
         let! r2 := connected_scan is_ww_conflicting op1 op1_conns
                      t2 o2 co2 p2 O h in
         match r2 with
         | Some b => Ok (Some b)
         | None => connected_scan is_ww_conflicting op1 op1_conns
                     tn on P pn cpn h
         end
       else Ok None) in
    match r with
    | Some b => Ok (Return b)
    | None =>
        let! stop := and_then (Ok (bool_decide (op1 = o1)))
                       (mapping_is alloc t1 READ_COMMITTED) in
        (* Only operations before or equal to o1 in t1 are considered *)
        if stop then Ok Break else Ok Next
    end)
  (operations t1).

(** Condition (5). *)
Definition condition_5 (t1 : Template) (o1 p1 on : Operation)
    (alloc : Allocation) : Result (option bool) :=
  if negb (is_rw_conflicting on p1) then
    let! l := lookup_mapping alloc t1 in
    if bool_decide (l ≠ READ_COMMITTED) then Ok (Some false)
    else
      for_each (fun op =>
        (* p1 occurs before o1 in t1 *)
        if bool_decide (op = p1) then Ok (Return false)
        else if bool_decide (op = o1) then Ok Break
        else Ok Next)
      (operations t1)
  else Ok None.

(** Condition (6). *)
Definition condition_6 (t1 t2 tn : Template) (alloc : Allocation)
  : Result (option bool) :=
  let! c := and_then (mapping_is alloc t1 SERIALIZABLE)
              (and_then (mapping_is alloc t2 SERIALIZABLE)
                        (mapping_is alloc tn SERIALIZABLE)) in
  if c then Ok (Some false) else Ok None.

(** Conditions (7) and (8): t1 and the template [t] are both SERIALIZABLE. *)
Definition condition_7_8 (conflict : Operation → Operation → bool)
    (t1 : Template) (o1 p1 : Operation)
    (t : Template) (o : Operation) (co : Conn) (p : Operation) (cp : Conn)
    (h : Z) (alloc : Allocation) : Result (option bool) :=
  let! c := and_then (mapping_is alloc t1 SERIALIZABLE)
                     (mapping_is alloc t SERIALIZABLE) in
  if c then
    for_each (fun op1 =>
      let! op1_conns := get_connectedness op1 o1 O p1 P h in
      or_next (connected_scan conflict op1 op1_conns t o co p cp h))
    (operations t1)
  else Ok None.

Definition is_valid_cycle (t1 : Template) (o1 p1 : Operation)
    (t2 : Template) (o2 p2 : Operation) (co2 : Conn)
    (tn : Template) (on pn : Operation) (cpn : Conn)
    (h : Z) (alloc : Allocation) : Result bool :=
  let! r := condition_2_3 t1 o1 p1 t2 o2 p2 co2 tn on pn cpn h alloc in
  match r with Some b => Ok b | None =>
  (* Condition (4) *)
  if negb (is_rw_conflicting o1 p2) then Ok false else
  let! r := condition_5 t1 o1 p1 on alloc in
  match r with Some b => Ok b | None =>
  let! r := condition_6 t1 t2 tn alloc in
  match r with Some b => Ok b | None =>
  let! r := condition_7_8 is_wr_conflicting t1 o1 p1 t2 o2 co2 p2 O h alloc in
  match r with Some b => Ok b | None =>
  let! r := condition_7_8 is_rw_conflicting t1 o1 p1 tn on P pn cpn h alloc in
  match r with Some b => Ok b | None =>
  Ok true
  end end end end end.

(** ** The robustness oracle *)

(** The value of an entry of the witness dictionary. *)
Inductive WitnessValue :=
| WTemplate (t : Template)
| WOperation (o : Operation)
| WInt (h : Z)
| WConn (c : Conn).

(** A candidate cycle: the twelve variables of the enumeration. *)
Record Cycle := mkCycle {
  c_t1 : Template; c_o1 : Operation; c_p1 : Operation; c_h : Z;
  c_t2 : Template; c_o2 : Operation; c_p2 : Operation; c_co2 : Conn;
  c_tn : Template; c_on : Operation; c_pn : Operation; c_cpn : Conn
}.

(** The dictionary [is_robust] returns with [False], in insertion order. *)
Definition witness_dict (c : Cycle) : list (string * WitnessValue) :=
  [ ("t1", WTemplate (c_t1 c)); ("o1", WOperation (c_o1 c));
    ("p1", WOperation (c_p1 c)); ("h", WInt (c_h c));
    ("t2", WTemplate (c_t2 c)); ("o2", WOperation (c_o2 c));
    ("p2", WOperation (c_p2 c)); ("co2", WConn (c_co2 c));
    ("tn", WTemplate (c_tn c)); ("on", WOperation (c_on c));
    ("pn", WOperation (c_pn c)); ("cpn", WConn (c_cpn c)) ].

Section Oracle.
Context `{NxGraph}.

(** The order in which a Python [set] built from the elements [l] (a set
    comprehension or a set display) is iterated. It depends on the hashes
    of the elements; the program relies on no particular order. *)
Variable set_iter : ∀ A : Type, list A → list A.
Arguments set_iter {A} _.

Definition is_robust (template_set : TemplateSet) (alloc : Allocation)
  : Result (bool * list (string * WitnessValue)) :=
  let template_ops :=
    set_iter (t ← templates template_set;
              '(o, p) ← product (operations t) (operations t);
              [(t, o, p)]) in
  let! r :=
    for_each (fun '(t1, o1, p1) =>
      let h_options :=
        if bool_decide (variable o1 = variable p1)
        then set_iter [1] else set_iter [1; 2] in
      or_next (for_each (fun h =>
        let pt_graph := pt_conflict_graph o1 p1 t1 h template_set in
        let rtc := transitive_closure pt_graph true in
        or_next (for_each (fun '(t2, p2) =>
          if negb (is_rw_conflicting o1 p2) then Ok Next else
          or_next (for_each (fun o2 =>
            or_next (for_each (fun '(tn, on) =>
              if negb (is_conflicting on p1) then Ok Next else
              or_next (for_each (fun pn =>
                let co2_options :=
                  if bool_decide (variable o2 = variable p2)
                  then set_iter [O] else set_iter [N; P] in
                let cpn_options :=
                  if bool_decide (variable on = variable pn)
                  then set_iter [P] else set_iter [N; O] in
                or_next (for_each (fun '(co2, cpn) =>
                  let! found :=
                    and_then
                      (is_valid_cycle t1 o1 p1 t2 o2 p2 co2
                         tn on pn cpn h alloc)
                      (Ok (reachable t2 o2 p2 co2 tn on pn cpn h rtc)) in
                  if found then
                    Ok (Return (false,
                      witness_dict
                        (mkCycle t1 o1 p1 h t2 o2 p2 co2 tn on pn cpn)))
                  else Ok Next)
                (product co2_options cpn_options)))
              (operations tn)))
            (set_iter (t ← templates template_set; p ← operations t;
                       [(t, p)]))))
          (operations t2)))
        (set_iter (t ← templates template_set; p ← operations t;
                   [(t, p)]))))
      h_options))
    template_ops in
  match r with
  | Some res => Ok res
  | None => Ok (true, [])
  end.

(** ** The greedy optimizer *)

(** [alloc.mapping[t] = il]. *)
Definition set_mapping (alloc : Allocation) (t : Template)
    (il : IsolationLevel) : Allocation :=
  mkAllocation (templateset alloc) (<[name t := il]> (mapping alloc)).

(** A [for] loop whose body updates a state and neither breaks nor
    returns. *)
Fixpoint for_state {A S} (body : S → A → Result S) (s : S) (l : list A)
  : Result S :=
  match l with
  | [] => Ok s
  | x :: l' => let! s' := body s x in for_state body s' l'
  end.

Definition optimal_alloc (template_set : TemplateSet) : Result Allocation :=
  let alloc :=
    mkAllocation template_set
      (foldl (fun m t => <[name t := SERIALIZABLE]> m) ∅
             (templates template_set)) in
  for_state (fun alloc t =>
    (* Try SI *)
    let alloc := set_mapping alloc t SNAPSHOT_ISOLATION in
    let! r := is_robust template_set alloc in
    if negb r.1 then
      (* not robust -> revert *)
      Ok (set_mapping alloc t SERIALIZABLE)
    else
      (* robust -> Try RC *)
      let alloc := set_mapping alloc t READ_COMMITTED in
      let! r := is_robust template_set alloc in
      if negb r.1 then
        (* Not robust -> revert *)
        Ok (set_mapping alloc t SNAPSHOT_ISOLATION)
      else Ok alloc)
  alloc (templates template_set).

(** ** The enumeration in the words of the specification

    For each (t1, o1, p1); for each admissible h; for each (t2, p2) with
    o1 rw-conflicting with p2 (else skip); for each o2; for each (tn, on)
    with on conflicting with p1 (else skip); for each pn; for each
    (co2, cpn) in the product of the label options. *)

Definition h_options (o1 p1 : Operation) : list Z :=
  if bool_decide (variable o1 = variable p1)
  then set_iter [1] else set_iter [1; 2].

Definition co2_options (o2 p2 : Operation) : list Conn :=
  if bool_decide (variable o2 = variable p2)
  then set_iter [O] else set_iter [N; P].

Definition cpn_options (on pn : Operation) : list Conn :=
  if bool_decide (variable on = variable pn)
  then set_iter [P] else set_iter [N; O].

Definition template_ops (template_set : TemplateSet)
  : list (Template * Operation * Operation) :=
  set_iter (t ← templates template_set;
            '(o, p) ← product (operations t) (operations t);
            [(t, o, p)]).

Definition template_op_pairs (template_set : TemplateSet)
  : list (Template * Operation) :=
  set_iter (t ← templates template_set; p ← operations t; [(t, p)]).

Definition candidates (template_set : TemplateSet) : list Cycle :=
  '(t1, o1, p1) ← template_ops template_set;
  h ← h_options o1 p1;
  '(t2, p2) ← template_op_pairs template_set;
  if negb (is_rw_conflicting o1 p2) then [] else
  o2 ← operations t2;
  '(tn, on) ← template_op_pairs template_set;
  if negb (is_conflicting on p1) then [] else
  pn ← operations tn;
  '(co2, cpn) ← product (co2_options o2 p2) (cpn_options on pn);
  [mkCycle t1 o1 p1 h t2 o2 p2 co2 tn on pn cpn].

(** The closure consulted for a candidate. *)
Definition cycle_rtc (template_set : TemplateSet) (c : Cycle) : Graph :=
  transitive_closure
    (pt_conflict_graph (c_o1 c) (c_p1 c) (c_t1 c) (c_h c) template_set) true.

Definition cycle_valid (alloc : Allocation) (c : Cycle) : Result bool :=
  is_valid_cycle (c_t1 c) (c_o1 c) (c_p1 c) (c_t2 c) (c_o2 c) (c_p2 c)
    (c_co2 c) (c_tn c) (c_on c) (c_pn c) (c_cpn c) (c_h c) alloc.

Definition cycle_reachable (template_set : TemplateSet) (c : Cycle) : bool :=
  reachable (c_t2 c) (c_o2 c) (c_p2 c) (c_co2 c) (c_tn c) (c_on c) (c_pn c)
    (c_cpn c) (c_h c) (cycle_rtc template_set c).

(** Test validity, then reachability. *)
Definition cycle_test (template_set : TemplateSet) (alloc : Allocation)
    (c : Cycle) : Result (Ctl (bool * list (string * WitnessValue))) :=
  let! found := and_then (cycle_valid alloc c)
                  (Ok (cycle_reachable template_set c)) in
  if found then Ok (Return (false, witness_dict c)) else Ok Next.

(** The first candidate that is valid and reachable decides. *)
Definition is_robust_spec (template_set : TemplateSet) (alloc : Allocation)
  : Result (bool * list (string * WitnessValue)) :=
  let! r := for_each (cycle_test template_set alloc)
              (candidates template_set) in
  match r with
  | Some res => Ok res
  | None => Ok (true, [])
  end.
End Oracle.

(** ** A list-based graph

    An implementation of the graph interface on lists: nodes and undirected
    edges in insertion order, and the closure that joins every node to the
    nodes of its connected component. *)
Module ListGraph.
Record t := mk {
  g_nodes : list GraphNode;
  g_edges : list (GraphNode * GraphNode)
}.

Definition has_node (n : GraphNode) (g : t) : bool :=
  existsb (GraphNode_eqb n) (g_nodes g).

Definition adjacent (u v : GraphNode) (g : t) : bool :=
  existsb (fun '(a, b) =>
    (GraphNode_eqb a u && GraphNode_eqb b v)
    || (GraphNode_eqb a v && GraphNode_eqb b u))
  (g_edges g).

Definition add_node (n : GraphNode) (g : t) : t :=
  if has_node n g then g else mk (g_nodes g ++ [n]) (g_edges g).

Definition add_edge (u v : GraphNode) (g : t) : t :=
  let g := add_node v (add_node u g) in
  if adjacent u v g then g else mk (g_nodes g) (g_edges g ++ [(u, v)]).

(** The nodes reached from [seen] in at most [fuel] rounds. *)
Fixpoint reach (fuel : nat) (g : t) (seen : list GraphNode)
  : list GraphNode :=
  match fuel with
  | 0%nat => seen
  | S fuel' =>
      reach fuel' g
        (seen ++ filter (fun n =>
                   negb (existsb (GraphNode_eqb n) seen)
                   && existsb (fun s => adjacent s n g) seen)
                 (g_nodes g))
  end.

Definition transitive_closure (g : t) (reflexive : bool) : t :=
  foldl (fun tc v =>
    foldl (fun tc u =>
             if negb (GraphNode_eqb u v) || reflexive
             then add_edge v u tc else tc)
      tc (reach (length (g_nodes g)) g [v]))
    g (g_nodes g).

(** The neighbours of [n], in the order in which its edges were added. *)
Definition neighbours (n : GraphNode) (g : t) : list GraphNode :=
  omap (fun '(a, b) =>
          if GraphNode_eqb a n then Some b
          else if GraphNode_eqb b n then Some a
          else None)
    (g_edges g).

(** The edge view of an undirected [nx.Graph]: the nodes are walked in the
    order in which they were inserted, and a node [n] yields the pairs
    [(n, nbr)] for its neighbours that have not been walked yet. Every edge
    is yielded once, from the endpoint that was inserted first. *)
Fixpoint edge_view_from (g : t) (seen todo : list GraphNode)
  : list (GraphNode * GraphNode) :=
  match todo with
  | [] => []
  | n :: todo' =>
      ((fun nbr => (n, nbr))
         <$> filter (fun nbr => negb (existsb (GraphNode_eqb nbr) seen))
               (neighbours n g))
      ++ edge_view_from g (seen ++ [n]) todo'
  end.

Definition edge_view (g : t) : list (GraphNode * GraphNode) :=
  edge_view_from g [] (g_nodes g).
End ListGraph.

#[global] Instance ListGraph_NxGraph : NxGraph := {|
  Graph := ListGraph.t;
  nx_Graph := ListGraph.mk [] [];
  add_node := ListGraph.add_node;
  add_edge := ListGraph.add_edge;
  nodes := ListGraph.g_nodes;
  edges := ListGraph.g_edges;
  transitive_closure := ListGraph.transitive_closure
|}.

(** The same graphs with the edges read through the edge view of an
    undirected graph, as [rtc.edges] reads them. *)
Definition OrderedView_NxGraph : NxGraph := {|
  Graph := ListGraph.t;
  nx_Graph := ListGraph.mk [] [];
  add_node := ListGraph.add_node;
  add_edge := ListGraph.add_edge;
  nodes := ListGraph.g_nodes;
  edges := ListGraph.edge_view;
  transitive_closure := ListGraph.transitive_closure
|}.

(** Iterating a set in the order in which its elements were given. *)
Definition insertion_order (A : Type) (l : list A) : list A := l.

(** ** Cycle validity once the levels are known

    What [is_valid_cycle] computes when the three dictionary lookups succeed
    with the levels [l1], [l2], [ln] and no sanity check fails; the lemmas
    below relate it to [is_valid_cycle]. *)

(** The set [get_connectedness] builds before it checks it. *)
Definition conn_set (target_op o : Operation) (co : Conn)
    (p : Operation) (cp : Conn) (h : Z) : gset Conn :=
  let result : gset Conn := ∅ in
  let result :=
    if bool_decide (variable target_op = variable o)
    then result ∪ {[co]} else result in
  let result :=
    if bool_decide (variable target_op = variable p)
    then result ∪ {[cp]} else result in
  let result :=
    if bool_decide (size result = 0%nat) then {[N]} else result in
  if bool_decide (h = 1) then
    let result :=
      if bool_decide (O ∈ result) then result ∪ {[P]} else result in
    if bool_decide (P ∈ result) then result ∪ {[O]} else result
  else result.

(** The sanity check of [get_connectedness]. *)
Definition conn_post (h : Z) (result : gset Conn) : Prop :=
  (h = 1 ∧ result ∈ [ ({[N]} : gset Conn); {[O; P]} ])
  ∨ (h = 2 ∧ result ∈ [ ({[N]} : gset Conn); {[O]}; {[P]} ]).

#[global] Instance conn_post_dec h result : Decision (conn_post h result).
Proof. unfold conn_post. apply _. Defined.

(** The labels under which the sanity check cannot fail. *)
Definition labels_ok (o : Operation) (co : Conn) (p : Operation) (cp : Conn)
    (h : Z) : Prop :=
  (h = 1 ∧ (variable o = variable p → co = cp ∨ (co ≠ N ∧ cp ≠ N)))
  ∨ (h = 2 ∧ (variable o = variable p → co = cp)).

Definition connected_hit (conflict : Operation → Operation → bool)
    (op1 : Operation) (op1_conns : gset Conn)
    (t : Template) (o : Operation) (co : Conn) (p : Operation) (cp : Conn)
    (h : Z) : bool :=
  existsb (fun op2 =>
    conflict op1 op2
    && bool_decide (0 < Z.of_nat (size (op1_conns ∩ conn_set op2 o co p cp h))))
  (operations t).

Section Levels.
Variables (t1 : Template) (o1 p1 : Operation)
          (t2 : Template) (o2 p2 : Operation) (co2 : Conn)
          (tn : Template) (on pn : Operation) (cpn : Conn) (h : Z).

Definition hit_2_3 (op1 : Operation) : bool :=
  let cs := conn_set op1 o1 O p1 P h in
  bool_decide (N ∉ cs)
  && (connected_hit is_ww_conflicting op1 cs t2 o2 co2 p2 O h
      || connected_hit is_ww_conflicting op1 cs tn on P pn cpn h).

(** [rc]: t1 runs under READ_COMMITTED, the scan stops after o1. *)
Fixpoint rejects_2_3 (rc : bool) (ops : list Operation) : bool :=
  match ops with
  | [] => false
  | op1 :: ops' =>
      hit_2_3 op1
      || (if bool_decide (op1 = o1) && rc then false
          else rejects_2_3 rc ops')
  end.

(** The scan of condition (5): [true] when p1 is met no later than o1. *)
Fixpoint p1_not_after_o1 (ops : list Operation) : bool :=
  match ops with
  | [] => false
  | op :: ops' =>
      if bool_decide (op = p1) then true
      else if bool_decide (op = o1) then false
      else p1_not_after_o1 ops'
  end.

Definition rejects_5 (l1 : IsolationLevel) : bool :=
  negb (is_rw_conflicting on p1)
  && (bool_decide (l1 ≠ READ_COMMITTED)
      || p1_not_after_o1 (operations t1)).

Definition rejects_6 (l1 l2 ln : IsolationLevel) : bool :=
  bool_decide (l1 = SERIALIZABLE) && bool_decide (l2 = SERIALIZABLE)
  && bool_decide (ln = SERIALIZABLE).

Definition rejects_7_8 (conflict : Operation → Operation → bool)
    (l1 l : IsolationLevel)
    (t : Template) (o : Operation) (co : Conn) (p : Operation) (cp : Conn)
  : bool :=
  bool_decide (l1 = SERIALIZABLE) && bool_decide (l = SERIALIZABLE)
  && existsb (fun op1 =>
       connected_hit conflict op1 (conn_set op1 o1 O p1 P h) t o co p cp h)
     (operations t1).

Definition valid_at_levels (l1 l2 ln : IsolationLevel) : bool :=
  negb (rejects_2_3 (bool_decide (l1 = READ_COMMITTED)) (operations t1))
  && is_rw_conflicting o1 p2
  && negb (rejects_5 l1)
  && negb (rejects_6 l1 l2 ln)
  && negb (rejects_7_8 is_wr_conflicting l1 l2 t2 o2 co2 p2 O)
  && negb (rejects_7_8 is_rw_conflicting l1 ln tn on P pn cpn).
End Levels.

(** The order RC < SI < SSI on isolation levels. *)
Definition level_le (a b : IsolationLevel) : Prop :=
  (IsolationLevel_value a ≤ IsolationLevel_value b)%Z.

(** [alloc] gives every template of [template_set] a level. *)
Definition total_on (template_set : TemplateSet) (alloc : Allocation) : Prop :=
  ∀ t, t ∈ templates template_set → is_Some (mapping alloc !! name t).

(** What the enumeration of [is_robust] guarantees of a candidate. *)
Record cycle_wf (template_set : TemplateSet) (c : Cycle) : Prop := {
  wf_t1 : c_t1 c ∈ templates template_set;
  wf_t2 : c_t2 c ∈ templates template_set;
  wf_tn : c_tn c ∈ templates template_set;
  wf_o1 : c_o1 c ∈ operations (c_t1 c);
  wf_p1 : c_p1 c ∈ operations (c_t1 c);
  wf_h : c_h c = 1 ∨ (c_h c = 2 ∧ variable (c_o1 c) ≠ variable (c_p1 c));
  wf_co2 : (variable (c_o2 c) = variable (c_p2 c) ∧ c_co2 c = O)
           ∨ (variable (c_o2 c) ≠ variable (c_p2 c)
              ∧ (c_co2 c = N ∨ c_co2 c = P));
  wf_cpn : (variable (c_on c) = variable (c_pn c) ∧ c_cpn c = P)
           ∨ (variable (c_on c) ≠ variable (c_pn c)
              ∧ (c_cpn c = N ∨ c_cpn c = O));
  wf_rw : is_rw_conflicting (c_o1 c) (c_p2 c) = true;
  wf_conflict : is_conflicting (c_on c) (c_p1 c) = true
}.

(** ** Example workloads *)

(** A template that reads a row and then writes another row of the same
    relation. *)
Definition opR := mkOperation "X" "R" {["a"]} ∅.
Definition opW := mkOperation "Y" "R" ∅ {["a"]}.
Definition tRW := mkTemplate "T" [opR; opW].
Definition TS1 := mkTemplateSet [tRW].
Definition allRC := mkAllocation TS1 {["T" := READ_COMMITTED]}.
Definition allSI := mkAllocation TS1 {["T" := SNAPSHOT_ISOLATION]}.
Definition allSSI := mkAllocation TS1 {["T" := SERIALIZABLE]}.
Definition noLevels := mkAllocation TS1 ∅.

(** A template with a single read-only operation. *)
Definition tRead := mkTemplate "Read" [opR].
Definition TSread := mkTemplateSet [tRead].
Definition readRC := mkAllocation TSread {["Read" := READ_COMMITTED]}.
Definition readSI := mkAllocation TSread {["Read" := SNAPSHOT_ISOLATION]}.

Definition readNoLevels := mkAllocation TSread ∅.

(** A template that reads and writes one row. *)
Definition opU := mkOperation "X" "R" {["a"]} {["a"]}.
Definition tUpd := mkTemplate "Upd" [opU].
Definition TSupd := mkTemplateSet [tUpd].
Definition updRC := mkAllocation TSupd {["Upd" := READ_COMMITTED]}.
Definition updSI := mkAllocation TSupd {["Upd" := SNAPSHOT_ISOLATION]}.

(** The READ_COMMITTED allocation with a key that is no template of the
    set. *)
Definition allRCextra :=
  mkAllocation TS1 (<["Other" := SERIALIZABLE]> {["T" := READ_COMMITTED]}).

(** Strictly lower, and lower on every key. *)
Definition level_lt (a b : IsolationLevel) : Prop :=
  (IsolationLevel_value a < IsolationLevel_value b)%Z.

Definition mapping_le (A B : gmap string IsolationLevel) : Prop :=
  ∀ key la lb, A !! key = Some la → B !! key = Some lb → level_le la lb.

(** Iterating a set in the reverse of the order in which its elements were
    given. *)
Definition reverse_order (A : Type) (l : list A) : list A := reverse l.

(** The template of the first example cut after its first operation. *)
Definition tRWcut := mkTemplate "T" [opR].

(** A template that updates a row of one relation and then a row of
    another, and the same template with its two operations exchanged. *)
Definition opA := mkOperation "X" "A" {["a"]} {["a"]}.
Definition opB := mkOperation "Y" "B" {["b"]} {["b"]}.
Definition tAB := mkTemplate "AB" [opA; opB].
Definition tBA := mkTemplate "AB" [opB; opA].
Definition TSab := mkTemplateSet [tAB].
Definition TSba := mkTemplateSet [tBA].

(** The closure [is_robust] builds for t1 = AB, o1 = A, p1 = B and h = 2,
    with [rtc.edges] read as the edge view of an undirected graph. *)
Definition rtcAB : ListGraph.t :=
  @transitive_closure OrderedView_NxGraph
    (@pt_conflict_graph OrderedView_NxGraph opA opB tAB 2 TSab) true.

Definition rtcBA : ListGraph.t :=
  @transitive_closure OrderedView_NxGraph
    (@pt_conflict_graph OrderedView_NxGraph opA opB tBA 2 TSba) true.

(** The node through which B is entered and the node through which A is
    left, both unconnected. *)
Definition nodeInB := mkGraphNode tAB opB N IN.
Definition nodeOutA := mkGraphNode tAB opA N OUT.

(** Whether an edge view yields the pair [(u, v)], in this orientation. *)
Definition yields (u v : GraphNode) (view : list (GraphNode * GraphNode))
  : bool :=
  existsb (fun '(a, b) => GraphNode_eqb a u && GraphNode_eqb b v) view.

(** * Properties *)

(** ** Loops *)

Lemma for_each_ext {A R} (f g : A → Result (Ctl R)) (l : list A) :
  (∀ x, x ∈ l → f x = g x) → for_each f l = for_each g l.
Proof.
  induction l as [|x l IH]; intros Hfg; simpl; [done|].
  rewrite (Hfg x) by left.
  destruct (g x) as [[| |r]|e]; try done.
  apply IH. intros y Hy. apply Hfg. by right.
Qed.

Lemma for_each_app {A R} (body : A → Result (Ctl R)) (l1 l2 : list A) :
  (∀ x, x ∈ l1 → body x ≠ Ok Break) →
  for_each body (l1 ++ l2) =
    match for_each body l1 with
    | Ok None => for_each body l2
    | r => r
    end.
Proof.
  induction l1 as [|x l1 IH]; intros Hnb; simpl; [done|].
  specialize (Hnb x) as Hx.
  destruct (body x) as [[| |r]|e]; try done.
  - apply IH. intros y Hy. apply Hnb. by right.
  - exfalso. apply Hx; [left|done].
Qed.

(** Two nested loops are one loop over the nested enumeration. *)
Lemma for_each_bind {A C R} (l : list A) (f : A → list C)
    (body : A → Result (Ctl R)) (body' : C → Result (Ctl R)) :
  (∀ c, body' c ≠ Ok Break) →
  (∀ x, x ∈ l → body x = or_next (for_each body' (f x))) →
  for_each body l = for_each body' (x ← l; f x).
Proof.
  intros Hnb. induction l as [|x l IH]; intros Hbody; [done|].
  cbn [mbind list_bind]. simpl.
  rewrite for_each_app by (intros; apply Hnb).
  rewrite (Hbody x) by left.
  destruct (for_each body' (f x)) as [[r|]|e]; simpl; try done.
  apply IH. intros y Hy. apply Hbody. by right.
Qed.

Lemma or_next_singleton {C R} (body' : C → Result (Ctl R)) (c : C) :
  body' c ≠ Ok Break → or_next (for_each body' [c]) = body' c.
Proof. simpl. destruct (body' c) as [[| |r]|e]; done. Qed.

Lemma for_each_nil_next {C R} (body' : C → Result (Ctl R)) :
  Ok Next = or_next (for_each body' []).
Proof. done. Qed.

(** ** The oracle walks the candidates in order *)

Section Enumeration.
Context `{NxGraph}.
Variable set_iter : ∀ A : Type, list A → list A.

Lemma cycle_test_no_break template_set alloc c :
  cycle_test template_set alloc c ≠ Ok Break.
Proof.
  unfold cycle_test, and_then.
  destruct (cycle_valid alloc c) as [[]|e]; simpl; try done.
  by destruct (cycle_reachable template_set c).
Qed.

Lemma is_robust_eq template_set alloc :
  is_robust set_iter template_set alloc
  = is_robust_spec set_iter template_set alloc.
Proof.
  unfold is_robust, is_robust_spec, candidates. f_equal.
  apply for_each_bind; [apply cycle_test_no_break|].
  intros [[t1 o1] p1] _. f_equal.
  apply for_each_bind; [apply cycle_test_no_break|].
  intros h _. f_equal.
  apply for_each_bind; [apply cycle_test_no_break|].
  intros [t2 p2] _.
  destruct (is_rw_conflicting o1 p2); simpl; [|done]. f_equal.
  apply for_each_bind; [apply cycle_test_no_break|].
  intros o2 _. f_equal.
  apply for_each_bind; [apply cycle_test_no_break|].
  intros [tn on] _.
  destruct (is_conflicting on p1); simpl; [|done]. f_equal.
  apply for_each_bind; [apply cycle_test_no_break|].
  intros pn _. f_equal.
  apply for_each_bind; [apply cycle_test_no_break|].
  intros [co2 cpn] _.
  by rewrite or_next_singleton by apply cycle_test_no_break.
Qed.
End Enumeration.

(** ** The connectedness propagator *)

Lemma get_connectedness_unfold target_op o co p cp h :
  get_connectedness target_op o co p cp h =
    if bool_decide (conn_post h (conn_set target_op o co p cp h))
    then Ok (conn_set target_op o co p cp h)
    else Raise AssertionError.
Proof. reflexivity. Qed.

(** A returned set passed the sanity check. *)
Lemma get_connectedness_post target_op o co p cp h result :
  get_connectedness target_op o co p cp h = Ok result → conn_post h result.
Proof.
  rewrite get_connectedness_unfold. case_bool_decide; [|done].
  by intros [= <-].
Qed.

Lemma conn_post_holds target_op o co p cp h :
  labels_ok o co p cp h → conn_post h (conn_set target_op o co p cp h).
Proof.
  unfold conn_set.
  intros [[-> Hl]|[-> Hl]];
    destruct (bool_decide (variable target_op = variable o)) eqn:E1;
    destruct (bool_decide (variable target_op = variable p)) eqn:E2;
    try apply bool_decide_eq_true_1 in E1;
    try apply bool_decide_eq_true_1 in E2;
    try (assert (Heq : variable o = variable p) by congruence;
         specialize (Hl Heq));
    destruct co, cp;
    try (apply (bool_decide_unpack _); vm_compute; exact I);
    naive_solver.
Qed.

Lemma get_connectedness_ok target_op o co p cp h :
  labels_ok o co p cp h →
  get_connectedness target_op o co p cp h
  = Ok (conn_set target_op o co p cp h).
Proof.
  intros Hl. rewrite get_connectedness_unfold.
  by rewrite bool_decide_eq_true_2 by by apply conn_post_holds.
Qed.

(** ** Cycle validity under known levels *)

Lemma lookup_mapping_Some alloc t l :
  mapping alloc !! name t = Some l → lookup_mapping alloc t = Ok l.
Proof. unfold lookup_mapping. by intros ->. Qed.

Lemma mapping_is_Some alloc t l il :
  mapping alloc !! name t = Some l →
  mapping_is alloc t il = Ok (bool_decide (l = il)).
Proof. intros Hl. unfold mapping_is. by rewrite (lookup_mapping_Some _ _ l). Qed.

Lemma connected_scan_ok conflict op1 cs t o co p cp h :
  labels_ok o co p cp h →
  connected_scan conflict op1 cs t o co p cp h
  = Ok (if connected_hit conflict op1 cs t o co p cp h
        then Some false else None).
Proof.
  intros Hl. unfold connected_scan, connected_hit.
  induction (operations t) as [|op2 ops IH]; simpl; [done|].
  destruct (conflict op1 op2); simpl; [|done].
  rewrite get_connectedness_ok by done. simpl.
  by case_bool_decide.
Qed.

Section ValidityLevels.
Variables (t1 : Template) (o1 p1 : Operation)
          (t2 : Template) (o2 p2 : Operation) (co2 : Conn)
          (tn : Template) (on pn : Operation) (cpn : Conn) (h : Z)
          (alloc : Allocation) (l1 l2 ln : IsolationLevel).
Hypothesis Hl1 : mapping alloc !! name t1 = Some l1.
Hypothesis Hl2 : mapping alloc !! name t2 = Some l2.
Hypothesis Hln : mapping alloc !! name tn = Some ln.
Hypothesis Hc1 : labels_ok o1 O p1 P h.
Hypothesis Hc2 : labels_ok o2 co2 p2 O h.
Hypothesis Hcn : labels_ok on P pn cpn h.

Lemma condition_2_3_ok :
  condition_2_3 t1 o1 p1 t2 o2 p2 co2 tn on pn cpn h alloc
  = Ok (if rejects_2_3 o1 p1 t2 o2 p2 co2 tn on pn cpn h
             (bool_decide (l1 = READ_COMMITTED)) (operations t1)
        then Some false else None).
Proof.
  unfold condition_2_3.
  rewrite (mapping_is_Some _ _ l1) by done.
  induction (operations t1) as [|op1 ops IH]; simpl; [done|].
  rewrite get_connectedness_ok by done. simpl. unfold hit_2_3.
  rewrite !connected_scan_ok by done.
  destruct (bool_decide (N ∉ conn_set op1 o1 O p1 P h)); simpl.
  - destruct (connected_hit is_ww_conflicting op1 _ t2 _ _ _ _ _);
      simpl; [done|].
    destruct (connected_hit is_ww_conflicting op1 _ tn _ _ _ _ _);
      simpl; [done|].
    destruct (bool_decide (op1 = o1)); simpl; [|exact IH].
    destruct (bool_decide (l1 = READ_COMMITTED)); [done|exact IH].
  - destruct (bool_decide (op1 = o1)); simpl; [|exact IH].
    destruct (bool_decide (l1 = READ_COMMITTED)); [done|exact IH].
Qed.

Lemma condition_5_ok :
  condition_5 t1 o1 p1 on alloc
  = Ok (if rejects_5 t1 o1 p1 on l1 then Some false else None).
Proof.
  unfold condition_5, rejects_5.
  destruct (is_rw_conflicting on p1); simpl; [done|].
  rewrite (lookup_mapping_Some _ _ l1) by done. simpl.
  case_bool_decide; simpl; [done|].
  induction (operations t1) as [|op ops IH]; simpl; [done|].
  case_bool_decide; [done|]. by case_bool_decide.
Qed.

Lemma condition_6_ok :
  condition_6 t1 t2 tn alloc
  = Ok (if rejects_6 l1 l2 ln then Some false else None).
Proof.
  unfold condition_6, rejects_6, and_then.
  rewrite (mapping_is_Some _ _ l1) by done. simpl.
  case_bool_decide; simpl; [|done].
  rewrite (mapping_is_Some _ _ l2) by done. simpl.
  case_bool_decide; simpl; [|done].
  rewrite (mapping_is_Some _ _ ln) by done. simpl.
  by case_bool_decide.
Qed.

Lemma condition_7_8_ok conflict t o co p cp l :
  mapping alloc !! name t = Some l →
  labels_ok o co p cp h →
  condition_7_8 conflict t1 o1 p1 t o co p cp h alloc
  = Ok (if rejects_7_8 t1 o1 p1 h conflict l1 l t o co p cp
        then Some false else None).
Proof.
  intros Hl Hc. unfold condition_7_8, rejects_7_8, and_then.
  rewrite (mapping_is_Some _ _ l1) by done. simpl.
  case_bool_decide; simpl; [|done].
  rewrite (mapping_is_Some _ _ l) by done. simpl.
  case_bool_decide; simpl; [|done].
  induction (operations t1) as [|op1 ops IH]; simpl; [done|].
  rewrite get_connectedness_ok by done. simpl.
  rewrite connected_scan_ok by done. simpl.
  by destruct (connected_hit conflict op1 _ t _ _ _ _ _).
Qed.

Lemma is_valid_cycle_ok :
  is_valid_cycle t1 o1 p1 t2 o2 p2 co2 tn on pn cpn h alloc
  = Ok (valid_at_levels t1 o1 p1 t2 o2 p2 co2 tn on pn cpn h l1 l2 ln).
Proof.
  unfold is_valid_cycle, valid_at_levels.
  rewrite condition_2_3_ok. simpl.
  destruct (rejects_2_3 _ _ _ _ _ _ _ _ _ _ _ _ _); simpl; [done|].
  destruct (is_rw_conflicting o1 p2); simpl; [|done].
  rewrite condition_5_ok. simpl.
  destruct (rejects_5 _ _ _ _ _); simpl; [done|].
  rewrite condition_6_ok. simpl.
  destruct (rejects_6 _ _ _); simpl; [done|].
  rewrite (condition_7_8_ok _ _ _ _ _ _ l2) by done. simpl.
  destruct (rejects_7_8 _ _ _ _ is_wr_conflicting _ _ _ _ _ _ _);
    simpl; [done|].
  rewrite (condition_7_8_ok _ _ _ _ _ _ ln) by done. simpl.
  by destruct (rejects_7_8 _ _ _ _ is_rw_conflicting _ _ _ _ _ _ _).
Qed.
End ValidityLevels.

(** ** No sanity check fails when the labels are those of the enumeration *)

Lemma rbind_no_assert {A B} (m : Result A) (f : A → Result B) :
  m ≠ Raise AssertionError →
  (∀ a, f a ≠ Raise AssertionError) →
  rbind m f ≠ Raise AssertionError.
Proof.
  intros Hm Hf. destruct m as [a|e]; simpl; [apply Hf|].
  intros [= ->]. by apply Hm.
Qed.

Lemma for_each_no_assert {A R} (body : A → Result (Ctl R)) (l : list A) :
  (∀ x, x ∈ l → body x ≠ Raise AssertionError) →
  for_each body l ≠ Raise AssertionError.
Proof.
  induction l as [|x l IH]; intros Hb; simpl; [done|].
  specialize (Hb x) as Hx.
  destruct (body x) as [[| |r]|e]; try done.
  - apply IH. intros y Hy. apply Hb. by right.
  - intros [= ->]. apply Hx; [left|done].
Qed.

Lemma mapping_is_no_assert alloc t il :
  mapping_is alloc t il ≠ Raise AssertionError.
Proof.
  unfold mapping_is, lookup_mapping. by destruct (mapping alloc !! name t).
Qed.

Lemma and_then_no_assert (a b : Result bool) :
  a ≠ Raise AssertionError → b ≠ Raise AssertionError →
  and_then a b ≠ Raise AssertionError.
Proof. intros Ha Hb. destruct a as [[]|e]; simpl; done. Qed.

Section NoAssert.
Variables (t1 : Template) (o1 p1 : Operation)
          (t2 : Template) (o2 p2 : Operation) (co2 : Conn)
          (tn : Template) (on pn : Operation) (cpn : Conn) (h : Z)
          (alloc : Allocation).
Hypothesis Hc1 : labels_ok o1 O p1 P h.
Hypothesis Hc2 : labels_ok o2 co2 p2 O h.
Hypothesis Hcn : labels_ok on P pn cpn h.

Lemma condition_2_3_no_assert :
  condition_2_3 t1 o1 p1 t2 o2 p2 co2 tn on pn cpn h alloc
  ≠ Raise AssertionError.
Proof.
  apply for_each_no_assert. intros op1 _.
  rewrite get_connectedness_ok by done. simpl.
  rewrite !connected_scan_ok by done.
  assert (Hstop : ∀ b : bool,
    rbind (and_then (Ok b) (mapping_is alloc t1 READ_COMMITTED))
      (fun stop => if stop then Ok Break else Ok Next)
    ≠ (Raise AssertionError
         : Result (Ctl bool))).
  { intros b. apply rbind_no_assert; [|by intros []].
    apply and_then_no_assert; [done|apply mapping_is_no_assert]. }
  destruct (bool_decide (N ∉ conn_set op1 o1 O p1 P h)); simpl;
    [|apply Hstop].
  destruct (connected_hit is_ww_conflicting op1 _ t2 _ _ _ _ _);
    simpl; [done|].
  destruct (connected_hit is_ww_conflicting op1 _ tn _ _ _ _ _);
    simpl; [done|].
  apply Hstop.
Qed.

Lemma condition_5_no_assert :
  condition_5 t1 o1 p1 on alloc ≠ Raise AssertionError.
Proof.
  unfold condition_5, lookup_mapping.
  destruct (negb (is_rw_conflicting on p1)); [|done].
  destruct (mapping alloc !! name t1); simpl; [|done].
  case_bool_decide; [done|].
  apply for_each_no_assert. intros op _.
  case_bool_decide; [done|]. by case_bool_decide.
Qed.

Lemma condition_6_no_assert :
  condition_6 t1 t2 tn alloc ≠ Raise AssertionError.
Proof.
  apply rbind_no_assert; [|by intros []].
  repeat apply and_then_no_assert; apply mapping_is_no_assert.
Qed.

Lemma condition_7_8_no_assert conflict t o co p cp :
  labels_ok o co p cp h →
  condition_7_8 conflict t1 o1 p1 t o co p cp h alloc
  ≠ Raise AssertionError.
Proof.
  intros Hc. apply rbind_no_assert.
  { apply and_then_no_assert; apply mapping_is_no_assert. }
  intros []; [|done].
  apply for_each_no_assert. intros op1 _.
  rewrite get_connectedness_ok by done. simpl.
  rewrite connected_scan_ok by done. simpl.
  by destruct (connected_hit conflict op1 _ t _ _ _ _ _).
Qed.

Lemma is_valid_cycle_no_assert :
  is_valid_cycle t1 o1 p1 t2 o2 p2 co2 tn on pn cpn h alloc
  ≠ Raise AssertionError.
Proof.
  unfold is_valid_cycle.
  apply rbind_no_assert; [apply condition_2_3_no_assert|].
  intros [b|]; [done|].
  destruct (negb (is_rw_conflicting o1 p2)); [done|].
  apply rbind_no_assert; [apply condition_5_no_assert|].
  intros [b|]; [done|].
  apply rbind_no_assert; [apply condition_6_no_assert|].
  intros [b|]; [done|].
  apply rbind_no_assert; [by apply condition_7_8_no_assert|].
  intros [b|]; [done|].
  apply rbind_no_assert; [by apply condition_7_8_no_assert|].
  by intros [b|].
Qed.
End NoAssert.

(** ** Raising levels only removes valid cycles *)

Lemma level_le_cases a b :
  level_le a b →
  a = b ∨ (a = READ_COMMITTED ∧ b ≠ READ_COMMITTED)
  ∨ (a = SNAPSHOT_ISOLATION ∧ b = SERIALIZABLE).
Proof. unfold level_le. destruct a, b; simpl; intros; naive_solver lia. Qed.

Lemma level_le_serializable_inv a b :
  level_le a b → a = SERIALIZABLE → b = SERIALIZABLE.
Proof. unfold level_le. intros Hle ->. destruct b; simpl in Hle; (done || lia). Qed.

Section Monotone.
Variables (t1 : Template) (o1 p1 : Operation)
          (t2 : Template) (o2 p2 : Operation) (co2 : Conn)
          (tn : Template) (on pn : Operation) (cpn : Conn) (h : Z).

Lemma rejects_2_3_mono ops :
  rejects_2_3 o1 p1 t2 o2 p2 co2 tn on pn cpn h true ops = true →
  rejects_2_3 o1 p1 t2 o2 p2 co2 tn on pn cpn h false ops = true.
Proof.
  induction ops as [|op1 ops IH]; simpl; [done|].
  destruct (hit_2_3 _ _ _ _ _ _ _ _ _ _ _ op1); simpl; [done|].
  rewrite andb_false_r.
  destruct (bool_decide (op1 = o1)); simpl; [done|exact IH].
Qed.

Lemma valid_at_levels_mono a1 a2 an b1 b2 bn :
  level_le a1 b1 → level_le a2 b2 → level_le an bn →
  valid_at_levels t1 o1 p1 t2 o2 p2 co2 tn on pn cpn h b1 b2 bn = true →
  valid_at_levels t1 o1 p1 t2 o2 p2 co2 tn on pn cpn h a1 a2 an = true.
Proof.
  intros H1 H2 Hn. unfold valid_at_levels.
  rewrite !andb_true_iff, !negb_true_iff.
  intros (((((G23 & Grw) & G5) & G6) & G7) & G8).
  repeat split; [| done | | | |].
  - destruct (bool_decide (a1 = READ_COMMITTED)) eqn:Ea,
             (bool_decide (b1 = READ_COMMITTED)) eqn:Eb; try done.
    + destruct (rejects_2_3 _ _ _ _ _ _ _ _ _ _ _ true _) eqn:E; [|done].
      apply rejects_2_3_mono in E. congruence.
    + apply bool_decide_eq_true_1 in Eb. apply bool_decide_eq_false_1 in Ea.
      subst. destruct a1; unfold level_le in H1; simpl in H1;
        (done || lia).
  - revert G5. unfold rejects_5.
    destruct (negb (is_rw_conflicting on p1)); simpl; [|done].
    rewrite !orb_false_iff. intros [G5 ->]. split; [|done].
    apply bool_decide_eq_false_1 in G5.
    apply bool_decide_eq_false_2. intros Ha. apply G5. intros ->.
    destruct a1; unfold level_le in H1; simpl in H1; (done || lia).
  - revert G6. unfold rejects_6. rewrite !andb_false_iff.
  rewrite !bool_decide_eq_false.
  intros [[Hb|Hb]|Hb]; [left; left|left; right|right];
    intros Ha; apply Hb; eauto using level_le_serializable_inv.
- revert G7. unfold rejects_7_8. rewrite !andb_false_iff.
  rewrite !bool_decide_eq_false.
  intros [[Hb|Hb]|Hb]; [left; left|left; right|by right];
    intros Ha; apply Hb; eauto using level_le_serializable_inv.
- revert G8. unfold rejects_7_8. rewrite !andb_false_iff.
  rewrite !bool_decide_eq_false.
  intros [[Hb|Hb]|Hb]; [left; left|left; right|by right];
    intros Ha; apply Hb; eauto using level_le_serializable_inv.
Qed.
End Monotone.

(** ** What the enumeration guarantees *)

Lemma elem_of_product {A B} (l1 : list A) (l2 : list B) x y :
  (x, y) ∈ product l1 l2 ↔ x ∈ l1 ∧ y ∈ l2.
Proof.
  unfold product. rewrite list_elem_of_bind. split.
  - intros (x' & Hy & Hx). apply list_elem_of_bind in Hy as (y' & Hxy & Hy).
    apply list_elem_of_singleton in Hxy as [= -> ->]. done.
  - intros [Hx Hy]. exists x. split; [|done].
    apply list_elem_of_bind. exists y. split; [|done].
    by apply list_elem_of_singleton.
Qed.

Lemma labels_ok_of_wf template_set c :
  cycle_wf template_set c →
  labels_ok (c_o1 c) O (c_p1 c) P (c_h c)
  ∧ labels_ok (c_o2 c) (c_co2 c) (c_p2 c) O (c_h c)
  ∧ labels_ok (c_on c) P (c_pn c) (c_cpn c) (c_h c).
Proof.
  intros [_ _ _ _ _ Hh Hco2 Hcpn _ _]. unfold labels_ok.
  repeat split; destruct Hh as [->|[-> Hne]]; naive_solver.
Qed.

Section Candidates.
Context `{NxGraph}.
Variable set_iter : ∀ A : Type, list A → list A.

(** Iterating a set yields the elements it was built from. *)
Hypothesis set_iter_elem :
  ∀ (A : Type) (l : list A) (x : A), x ∈ set_iter A l ↔ x ∈ l.

Lemma elem_of_template_ops template_set t o p :
  (t, o, p) ∈ template_ops set_iter template_set →
  t ∈ templates template_set ∧ o ∈ operations t ∧ p ∈ operations t.
Proof.
  unfold template_ops. rewrite set_iter_elem, list_elem_of_bind.
  intros (t' & Hop & Ht).
  apply list_elem_of_bind in Hop as ([o' p'] & Heq & Hop).
  apply list_elem_of_singleton in Heq as [= -> -> ->].
  by apply elem_of_product in Hop.
Qed.

Lemma elem_of_template_op_pairs template_set t p :
  (t, p) ∈ template_op_pairs set_iter template_set →
  t ∈ templates template_set ∧ p ∈ operations t.
Proof.
  unfold template_op_pairs. rewrite set_iter_elem, list_elem_of_bind.
  intros (t' & Hop & Ht).
  apply list_elem_of_bind in Hop as (p' & Heq & Hop).
  by apply list_elem_of_singleton in Heq as [= -> ->].
Qed.

Lemma elem_of_candidates template_set c :
  c ∈ candidates set_iter template_set →
  cycle_wf template_set c
  ∧ (c_t2 c, c_p2 c) ∈ template_op_pairs set_iter template_set.
Proof.
  unfold candidates.
  intros Hc. apply list_elem_of_bind in Hc as ([[t1 o1] p1] & Hc & H1).
  apply elem_of_template_ops in H1 as (Ht1 & Ho1 & Hp1).
  apply list_elem_of_bind in Hc as (h & Hc & Hh).
  apply list_elem_of_bind in Hc as ([t2 p2] & Hc & H2).
  pose proof H2 as H2'.
  apply elem_of_template_op_pairs in H2 as (Ht2 & Hp2).
  destruct (is_rw_conflicting o1 p2) eqn:Hrw; simpl in Hc;
    [|by apply elem_of_nil in Hc].
  apply list_elem_of_bind in Hc as (o2 & Hc & Ho2).
  apply list_elem_of_bind in Hc as ([tn on] & Hc & Hn).
  apply elem_of_template_op_pairs in Hn as (Htn & Hon).
  destruct (is_conflicting on p1) eqn:Hcf; simpl in Hc;
    [|by apply elem_of_nil in Hc].
  apply list_elem_of_bind in Hc as (pn & Hc & Hpn).
  apply list_elem_of_bind in Hc as ([co2 cpn] & Hc & Hl).
  apply list_elem_of_singleton in Hc as ->.
  apply elem_of_product in Hl as [Hco2 Hcpn].
  split; [|done]. split; simpl; try done.
  - unfold h_options in Hh. case_bool_decide;
      apply (proj1 (set_iter_elem _ _ _)) in Hh;
      rewrite ?elem_of_cons, elem_of_nil in Hh; naive_solver.
  - unfold co2_options in Hco2. case_bool_decide;
      apply (proj1 (set_iter_elem _ _ _)) in Hco2;
      rewrite ?elem_of_cons, elem_of_nil in Hco2; naive_solver.
  - unfold cpn_options in Hcpn. case_bool_decide;
      apply (proj1 (set_iter_elem _ _ _)) in Hcpn;
      rewrite ?elem_of_cons, elem_of_nil in Hcpn; naive_solver.
Qed.

Lemma candidates_wf template_set c :
  c ∈ candidates set_iter template_set → cycle_wf template_set c.
Proof. intros Hc. by apply elem_of_candidates in Hc as [? _]. Qed.

(** On a total allocation, validity of a candidate is its validity at the
    three levels looked up. *)
Lemma cycle_valid_total template_set alloc c :
  total_on template_set alloc →
  c ∈ candidates set_iter template_set →
  ∃ l1 l2 ln,
    mapping alloc !! name (c_t1 c) = Some l1
    ∧ mapping alloc !! name (c_t2 c) = Some l2
    ∧ mapping alloc !! name (c_tn c) = Some ln
    ∧ cycle_valid alloc c
      = Ok (valid_at_levels (c_t1 c) (c_o1 c) (c_p1 c)
              (c_t2 c) (c_o2 c) (c_p2 c) (c_co2 c)
              (c_tn c) (c_on c) (c_pn c) (c_cpn c) (c_h c) l1 l2 ln).
Proof.
  intros Htot Hc. apply candidates_wf in Hc.
  destruct (Htot _ (wf_t1 _ _ Hc)) as [l1 Hl1].
  destruct (Htot _ (wf_t2 _ _ Hc)) as [l2 Hl2].
  destruct (Htot _ (wf_tn _ _ Hc)) as [ln Hln].
  destruct (labels_ok_of_wf _ _ Hc) as (Hc1 & Hc2 & Hcn).
  exists l1, l2, ln. repeat split; try done.
  by apply is_valid_cycle_ok.
Qed.

Lemma cycle_test_no_assert template_set alloc c :
  c ∈ candidates set_iter template_set →
  cycle_test template_set alloc c ≠ Raise AssertionError.
Proof.
  intros Hc. apply candidates_wf in Hc.
  destruct (labels_ok_of_wf _ _ Hc) as (Hc1 & Hc2 & Hcn).
  unfold cycle_test. apply rbind_no_assert; [|by intros []].
  apply and_then_no_assert; [|done].
  by apply is_valid_cycle_no_assert.
Qed.
End Candidates.

(** ** How a loop without [break] ends *)

Lemma for_each_None {A R} (body : A → Result (Ctl R)) (l : list A) :
  (∀ x, x ∈ l → body x ≠ Ok Break) →
  for_each body l = Ok None ↔ ∀ x, x ∈ l → body x = Ok Next.
Proof.
  induction l as [|x l IH]; intros Hnb; simpl.
  - split; [|done]. by intros _ x Hx%elem_of_nil.
  - assert (Hl : ∀ y, y ∈ l → body y ≠ Ok Break)
      by (intros y Hy; apply Hnb; by right).
    specialize (IH Hl). specialize (Hnb x (list_elem_of_here _ _)).
    destruct (body x) as [[| |r]|e] eqn:E; try done.
    + rewrite IH. split.
      * intros Hall y [->|Hy]%elem_of_cons; auto.
      * intros Hall y Hy. apply Hall. by right.
    + split; [done|]. intros Hall.
      specialize (Hall x (list_elem_of_here _ _)). congruence.
    + split; [done|]. intros Hall.
      specialize (Hall x (list_elem_of_here _ _)). congruence.
Qed.

Lemma for_each_Some {A R} (body : A → Result (Ctl R)) (l : list A) r :
  for_each body l = Ok (Some r) →
  ∃ pre x post,
    l = (pre ++ x :: post)%list
    ∧ (∀ y, y ∈ pre → body y = Ok Next)
    ∧ body x = Ok (Return r).
Proof.
  induction l as [|x l IH]; simpl; [done|].
  destruct (body x) as [[| |r']|e] eqn:E; try done.
  - intros (pre & y & post & -> & Hpre & Hy)%IH.
    exists (x :: pre), y, post. split; [done|]. split; [|done].
    intros z [->|Hz]%elem_of_cons; auto.
  - intros [= ->]. exists [], x, l. split; [done|]. split; [|done].
    by intros y Hy%elem_of_nil.
Qed.

Lemma for_each_Raise {A R} (body : A → Result (Ctl R)) (l : list A) e :
  for_each body l = Raise e → ∃ x, x ∈ l ∧ body x = Raise e.
Proof.
  induction l as [|x l IH]; simpl; [done|].
  destruct (body x) as [[| |r']|e'] eqn:E; try done.
  - intros (y & Hy & Hb)%IH. exists y. split; [by right|done].
  - intros [= ->]. exists x. split; [left|done].
Qed.

(** ** The test of one candidate *)

Section CycleTest.
Context `{NxGraph}.

Lemma cycle_test_Next template_set alloc c :
  cycle_test template_set alloc c = Ok Next ↔
  cycle_valid alloc c = Ok false
  ∨ (cycle_valid alloc c = Ok true ∧ cycle_reachable template_set c = false).
Proof.
  unfold cycle_test, and_then.
  destruct (cycle_valid alloc c) as [[]|e]; simpl;
    [destruct (cycle_reachable template_set c)|..]; naive_solver.
Qed.

Lemma cycle_test_Return template_set alloc c r :
  cycle_test template_set alloc c = Ok (Return r) ↔
  r = (false, witness_dict c)
  ∧ cycle_valid alloc c = Ok true ∧ cycle_reachable template_set c = true.
Proof.
  unfold cycle_test, and_then.
  destruct (cycle_valid alloc c) as [[]|e]; simpl;
    [destruct (cycle_reachable template_set c)|..]; naive_solver.
Qed.

Lemma cycle_test_Raise template_set alloc c e :
  cycle_test template_set alloc c = Raise e ↔ cycle_valid alloc c = Raise e.
Proof.
  unfold cycle_test, and_then.
  destruct (cycle_valid alloc c) as [[]|e']; simpl;
    [destruct (cycle_reachable template_set c)|..]; naive_solver.
Qed.
End CycleTest.

(** Inside the loops of [is_valid_cycle] only [False] is returned. *)
Lemma connected_scan_Some conflict op1 cs t o co p cp h b :
  connected_scan conflict op1 cs t o co p cp h = Ok (Some b) → b = false.
Proof.
  intros (pre & op2 & post & _ & _ & Hb)%for_each_Some. revert Hb.
  destruct (conflict op1 op2); [|done].
  destruct (get_connectedness op2 o co p cp h) as [cs2|e]; simpl; [|done].
  case_bool_decide; [|done]. by intros [= <-].
Qed.

Lemma condition_2_3_Some t1 o1 p1 t2 o2 p2 co2 tn on pn cpn h alloc b :
  condition_2_3 t1 o1 p1 t2 o2 p2 co2 tn on pn cpn h alloc = Ok (Some b) →
  b = false.
Proof.
  intros (pre & op1 & post & _ & _ & Hb)%for_each_Some. revert Hb.
  destruct (get_connectedness op1 o1 O p1 P h) as [cs|e]; simpl; [|done].
  assert (Hstop :
    rbind (and_then (Ok (bool_decide (op1 = o1)))
             (mapping_is alloc t1 READ_COMMITTED))
      (fun stop => if stop then Ok Break else Ok Next)
    ≠ Ok (Return b)).
  { destruct (and_then _ _) as [[]|e]; done. }
  destruct (bool_decide (N ∉ cs)); simpl; [|done].
  destruct (connected_scan is_ww_conflicting op1 cs t2 o2 co2 p2 O h)
    as [[b2|]|e] eqn:E2; simpl; try done.
  { apply connected_scan_Some in E2 as ->. by intros [= <-]. }
  destruct (connected_scan is_ww_conflicting op1 cs tn on P pn cpn h)
    as [[bn|]|e] eqn:En; simpl; try done.
  apply connected_scan_Some in En as ->. by intros [= <-].
Qed.

(** A cycle accepted by [is_valid_cycle] went through conditions (5) and
    (6). *)
Lemma is_valid_cycle_true t1 o1 p1 t2 o2 p2 co2 tn on pn cpn h alloc :
  is_valid_cycle t1 o1 p1 t2 o2 p2 co2 tn on pn cpn h alloc = Ok true →
  condition_5 t1 o1 p1 on alloc = Ok None
  ∧ condition_6 t1 t2 tn alloc = Ok None.
Proof.
  unfold is_valid_cycle.
  destruct (condition_2_3 _ _ _ _ _ _ _ _ _ _ _ _ _) as [[b|]|e] eqn:E23;
    simpl; try done.
  { apply condition_2_3_Some in E23 as ->. done. }
  destruct (negb (is_rw_conflicting o1 p2)); [done|].
  destruct (condition_5 _ _ _ _ _) as [[b|]|e] eqn:E5; simpl; try done.
  { intros [= ->]. exfalso. revert E5. unfold condition_5.
    destruct (negb (is_rw_conflicting on p1)); [|done].
    destruct (lookup_mapping alloc t1); simpl; [|done].
    case_bool_decide; [done|].
    intros (pre & op & post & _ & _ & Hb)%for_each_Some. revert Hb.
    case_bool_decide; [done|]. by case_bool_decide. }
  destruct (condition_6 _ _ _ _) as [[b|]|e] eqn:E6; simpl; try done.
  intros [= ->]. exfalso. revert E6. unfold condition_6.
  destruct (and_then _ _) as [[]|e]; done.
Qed.

(** Condition (6) rejects when the three levels are SERIALIZABLE, and
    raises when t1 has no level. *)
Lemma condition_6_all_serializable t1 t2 tn alloc :
  mapping alloc !! name t1 = Some SERIALIZABLE →
  mapping alloc !! name t2 = Some SERIALIZABLE →
  mapping alloc !! name tn = Some SERIALIZABLE →
  condition_6 t1 t2 tn alloc = Ok (Some false).
Proof.
  intros H1 H2 Hn.
  by rewrite (condition_6_ok _ _ _ _ SERIALIZABLE SERIALIZABLE SERIALIZABLE).
Qed.

Lemma condition_6_missing t1 t2 tn alloc :
  mapping alloc !! name t1 = None →
  condition_6 t1 t2 tn alloc = Raise KeyError.
Proof.
  intros H1. unfold condition_6, and_then, mapping_is, lookup_mapping.
  by rewrite H1.
Qed.

Lemma valid_at_levels_all_serializable
    t1 o1 p1 t2 o2 p2 co2 tn on pn cpn h :
  valid_at_levels t1 o1 p1 t2 o2 p2 co2 tn on pn cpn h
    SERIALIZABLE SERIALIZABLE SERIALIZABLE = false.
Proof.
  unfold valid_at_levels. replace (rejects_6 _ _ _) with true by done.
  simpl. by rewrite andb_false_r.
Qed.

(** ** State-updating loops and allocations *)

Lemma for_state_inv {A S} (Inv : S → Prop) (body : S → A → Result S)
    (s : S) (l : list A) :
  Inv s →
  (∀ s x, x ∈ l → Inv s → ∃ s', body s x = Ok s' ∧ Inv s') →
  ∃ s', for_state body s l = Ok s' ∧ Inv s'.
Proof.
  revert s. induction l as [|x l IH]; intros s Hs Hstep; simpl; [by eauto|].
  destruct (Hstep s x (list_elem_of_here _ _) Hs) as (s' & -> & Hs'). simpl.
  apply IH; [done|]. intros s'' y Hy. apply Hstep. by right.
Qed.

Lemma level_le_refl a : level_le a a.
Proof. unfold level_le. lia. Qed.

Lemma level_le_serializable a : level_le a SERIALIZABLE.
Proof. unfold level_le. destruct a; simpl; lia. Qed.

Lemma total_on_set_mapping template_set alloc t il :
  total_on template_set alloc →
  total_on template_set (set_mapping alloc t il).
Proof.
  intros Htot u Hu. simpl. rewrite lookup_insert.
  case_decide; [by eauto|by apply Htot].
Qed.

Lemma initial_mapping_lookup (l : list Template) (m : gmap string IsolationLevel) k :
  (m !! k = Some SERIALIZABLE ∨ ∃ t, t ∈ l ∧ name t = k) →
  foldl (fun m t => <[name t := SERIALIZABLE]> m) m l !! k
  = Some SERIALIZABLE.
Proof.
  revert m. induction l as [|t l IH]; intros m; simpl.
  - intros [Hm|(t & Ht%elem_of_nil & _)]; done.
  - intros Hk. apply IH. rewrite lookup_insert.
    case_decide; [by left|].
    destruct Hk as [Hm|(u & [->|Hu]%elem_of_cons & Hn)]; [by left|done|].
    right. by exists u.
Qed.

(** ** The oracle *)

Section Robustness.
Context `{NxGraph}.
Variable set_iter : ∀ A : Type, list A → list A.

(** [is_robust] answers [True] exactly when every candidate fails its
    test, and then with the empty dictionary. *)
Lemma is_robust_true_iff template_set alloc w :
  is_robust set_iter template_set alloc = Ok (true, w) ↔
  w = [] ∧ ∀ c, c ∈ candidates set_iter template_set →
                cycle_test template_set alloc c = Ok Next.
Proof.
  rewrite is_robust_eq. unfold is_robust_spec.
  destruct (for_each _ _) as [[r|]|e] eqn:E; simpl.
  - apply for_each_Some in E as (pre & c & post & Hl & _ & Hc).
    pose proof Hc as Hc'. apply cycle_test_Return in Hc' as (-> & _ & _).
    split; [done|]. intros [_ Hall].
    assert (Hin : c ∈ candidates set_iter template_set)
      by (rewrite Hl; apply elem_of_app; right; left).
    specialize (Hall c Hin). congruence.
  - pose proof (proj1 (for_each_None _ _
      (fun c _ => cycle_test_no_break template_set alloc c)) E) as Hall.
    split; [intros [= <-]; by split|by intros [-> _]].
  - apply for_each_Raise in E as (c & Hc & Hr).
    split; [done|]. intros [_ Hall]. specialize (Hall c Hc). congruence.
Qed.


Hypothesis set_iter_elem :
  ∀ (A : Type) (l : list A) (x : A), x ∈ set_iter A l ↔ x ∈ l.

(** On a total allocation the oracle raises nothing. *)
Lemma is_robust_total template_set alloc :
  total_on template_set alloc →
  ∃ b w, is_robust set_iter template_set alloc = Ok (b, w).
Proof.
  intros Htot. rewrite is_robust_eq. unfold is_robust_spec.
  destruct (for_each _ _) as [[[b w]|]|e] eqn:E; simpl; [by eauto..|].
  apply for_each_Raise in E as (c & Hc & Hr).
  apply cycle_test_Raise in Hr.
  destruct (cycle_valid_total set_iter set_iter_elem _ _ _ Htot Hc)
    as (l1 & l2 & ln & _ & _ & _ & Hv). congruence.
Qed.

Lemma is_robust_all_serializable template_set alloc :
  (∀ t, t ∈ templates template_set →
        mapping alloc !! name t = Some SERIALIZABLE) →
  is_robust set_iter template_set alloc = Ok (true, []).
Proof.
  intros Hssi. apply is_robust_true_iff. split; [done|]. intros c Hc.
  apply cycle_test_Next. left.
  assert (Htot : total_on template_set alloc)
    by (intros t Ht; rewrite Hssi by done; eauto).
  destruct (cycle_valid_total set_iter set_iter_elem _ _ _ Htot Hc)
    as (l1 & l2 & ln & H1 & H2 & Hn & ->).
  apply (candidates_wf set_iter set_iter_elem) in Hc.
  rewrite Hssi in H1 by apply Hc. rewrite Hssi in H2 by apply Hc.
  rewrite Hssi in Hn by apply Hc.
  injection H1 as <-. injection H2 as <-. injection Hn as <-.
  by rewrite valid_at_levels_all_serializable.
Qed.

Lemma is_robust_mono template_set A B w :
  total_on template_set A → total_on template_set B →
  (∀ t la lb, t ∈ templates template_set →
     mapping A !! name t = Some la → mapping B !! name t = Some lb →
     level_le la lb) →
  is_robust set_iter template_set A = Ok (true, w) →
  is_robust set_iter template_set B = Ok (true, w).
Proof.
  intros HA HB Hle. rewrite !is_robust_true_iff.
  intros [-> Hall]. split; [done|]. intros c Hc.
  specialize (Hall c Hc). apply cycle_test_Next in Hall.
  apply cycle_test_Next.
  destruct (cycle_valid_total set_iter set_iter_elem _ _ _ HA Hc)
    as (a1 & a2 & an & Ha1 & Ha2 & Han & HvA).
  destruct (cycle_valid_total set_iter set_iter_elem _ _ _ HB Hc)
    as (b1 & b2 & bn & Hb1 & Hb2 & Hbn & HvB).
  pose proof (candidates_wf set_iter set_iter_elem _ _ Hc) as Hwf.
  rewrite HvB. rewrite HvA in Hall.
  destruct (valid_at_levels _ _ _ _ _ _ _ _ _ _ _ _ b1 b2 bn) eqn:E;
    [|by left].
  apply (valid_at_levels_mono _ _ _ _ _ _ _ _ _ _ _ _ a1 a2 an) in E.
  - right. split; [done|]. destruct Hall as [Hf|[_ Hr]]; [congruence|done].
  - apply (Hle (c_t1 c)); [apply Hwf|done..].
  - apply (Hle (c_t2 c)); [apply Hwf|done..].
  - apply (Hle (c_tn c)); [apply Hwf|done..].
Qed.

(** C1. The all-SERIALIZABLE allocation is robust: for every template
    set, [is_robust] returns [(True, {})] when the allocation maps every
    template to SERIALIZABLE; and [is_valid_cycle] accepts no cycle whose
    templates t1, t2, tn are all SERIALIZABLE, condition (6) returning
    [False] for it. *)
Theorem all_serializable_robust template_set alloc :
  (∀ t, t ∈ templates template_set →
        mapping alloc !! name t = Some SERIALIZABLE) →
  is_robust set_iter template_set alloc = Ok (true, [])
  ∧ ∀ t1 o1 p1 t2 o2 p2 co2 tn on pn cpn h,
      t1 ∈ templates template_set → t2 ∈ templates template_set →
      tn ∈ templates template_set →
      condition_6 t1 t2 tn alloc = Ok (Some false)
      ∧ is_valid_cycle t1 o1 p1 t2 o2 p2 co2 tn on pn cpn h alloc
        ≠ Ok true.
Proof.
  intros Hssi. split; [by apply is_robust_all_serializable|].
  intros t1 o1 p1 t2 o2 p2 co2 tn on pn cpn h H1 H2 Hn.
  assert (H6 : condition_6 t1 t2 tn alloc = Ok (Some false))
    by (apply condition_6_all_serializable; by apply Hssi).
  split; [done|]. intros [_ Hv]%is_valid_cycle_true. congruence.
Qed.

(** C2. Robustness is monotone in the isolation levels: for total
    allocations A and B over the template set with A[t] <= B[t] for every
    template t (RC < SI < SSI), if [is_robust] returns [True] under A it
    returns [True] under B; and if it returns [False] under B it returns
    [False] under A. So raising levels never breaks a robust allocation
    and lowering levels never makes a non-robust allocation robust. *)
Theorem robust_monotone template_set A B w :
  total_on template_set A → total_on template_set B →
  (∀ t la lb, t ∈ templates template_set →
     mapping A !! name t = Some la → mapping B !! name t = Some lb →
     level_le la lb) →
  (is_robust set_iter template_set A = Ok (true, w) →
   is_robust set_iter template_set B = Ok (true, w))
  ∧ (∀ wb, is_robust set_iter template_set B = Ok (false, wb) →
       ∃ wa, is_robust set_iter template_set A = Ok (false, wa)).
Proof.
  intros HA HB Hle. split; [by apply is_robust_mono|].
  intros wb HrB.
  destruct (is_robust_total _ _ HA) as ([] & wa & HrA); [|by eauto].
  apply (is_robust_mono _ A B) in HrA; [congruence|done..].
Qed.

(** C3. The allocation [optimal_alloc] returns is robust: the optimizer
    ends without an exception, and [is_robust] answers [True] on the
    allocation it returns. *)
Theorem optimal_alloc_robust template_set :
  ∃ alloc w,
    optimal_alloc set_iter template_set = Ok alloc
    ∧ is_robust set_iter template_set alloc = Ok (true, w).
Proof.
  unfold optimal_alloc.
  set (Inv := fun alloc : Allocation =>
    total_on template_set alloc
    ∧ is_robust set_iter template_set alloc = Ok (true, [])).
  match goal with
  | |- ∃ alloc w, for_state ?body ?s ?l = _ ∧ _ =>
      destruct (for_state_inv Inv body s l) as (alloc & Hrun & _ & Hrob)
  end.
  - assert (Hssi : ∀ t, t ∈ templates template_set →
      foldl (fun (m : gmap string IsolationLevel) t =>
               <[name t := SERIALIZABLE]> m) ∅
        (templates template_set) !! name t = Some SERIALIZABLE).
    { intros t Ht. apply initial_mapping_lookup. right. by exists t. }
    split.
    + intros t Ht. simpl. rewrite Hssi by done. by eauto.
    + by apply is_robust_all_serializable.
  - intros alloc t Ht [Htot Hrob].
    set (alloc1 := set_mapping alloc t SNAPSHOT_ISOLATION).
    assert (Htot1 : total_on template_set alloc1)
      by by apply total_on_set_mapping.
    destruct (is_robust_total _ _ Htot1) as (b1 & w1 & E1).
    rewrite E1. simpl. destruct b1; simpl.
    + apply is_robust_true_iff in E1 as E1'. destruct E1' as [-> _].
      set (alloc2 := set_mapping alloc1 t READ_COMMITTED).
      assert (Htot2 : total_on template_set alloc2)
        by by apply total_on_set_mapping.
      destruct (is_robust_total _ _ Htot2) as (b2 & w2 & E2).
      rewrite E2. simpl. destruct b2; simpl.
      * apply is_robust_true_iff in E2 as E2'. destruct E2' as [-> _].
        by eexists.
      * eexists. split; [done|].
        split; [by apply total_on_set_mapping|].
        apply (is_robust_mono _ alloc1);
          [done|by apply total_on_set_mapping| |done].
        intros u la lb _. simpl. rewrite !lookup_insert.
        case_decide; [|intros -> [= ->]; apply level_le_refl].
        intros [= <-] [= <-]. apply level_le_refl.
    + eexists. split; [done|].
      split; [by apply total_on_set_mapping|].
      apply (is_robust_mono _ alloc);
        [done|by apply total_on_set_mapping| |done].
      intros u la lb _. simpl. rewrite !lookup_insert.
      case_decide; [|intros -> [= ->]; apply level_le_refl].
      intros _ [= <-]. apply level_le_serializable.
  - by exists alloc, [].
Qed.

Lemma is_robust_no_assert template_set alloc :
  is_robust set_iter template_set alloc ≠ Raise AssertionError.
Proof.
  rewrite is_robust_eq. unfold is_robust_spec.
  destruct (for_each _ _) as [[r|]|e] eqn:E; simpl; [done..|].
  apply for_each_Raise in E as (c & Hc & Hr). intros [= ->].
  by apply (cycle_test_no_assert set_iter set_iter_elem) in Hr.
Qed.

(** C7. The sanity check of [get_connectedness] never fails during an
    evaluation of [is_robust]: the oracle raises no [AssertionError], and
    for every candidate of the enumeration each of the three calls
    [is_valid_cycle] makes, on whatever operation, returns a set that
    satisfies the postcondition: {N} or {O, P} when h = 1, and one of {N},
    {O}, {P} when h = 2. *)
Theorem get_connectedness_sanity template_set alloc :
  is_robust set_iter template_set alloc ≠ Raise AssertionError
  ∧ ∀ c op, c ∈ candidates set_iter template_set →
      ∃ s1 s2 sn,
        get_connectedness op (c_o1 c) O (c_p1 c) P (c_h c) = Ok s1
        ∧ get_connectedness op (c_o2 c) (c_co2 c) (c_p2 c) O (c_h c)
          = Ok s2
        ∧ get_connectedness op (c_on c) P (c_pn c) (c_cpn c) (c_h c)
          = Ok sn
        ∧ conn_post (c_h c) s1 ∧ conn_post (c_h c) s2
        ∧ conn_post (c_h c) sn.
Proof.
  split; [apply is_robust_no_assert|]. intros c op Hc.
  apply (candidates_wf set_iter set_iter_elem) in Hc.
  destruct (labels_ok_of_wf _ _ Hc) as (Hc1 & Hc2 & Hcn).
  eexists _, _, _.
  rewrite !get_connectedness_ok by done.
  repeat split; by apply conn_post_holds.
Qed.

(** C8, as the code has it. [is_robust] does not compare the domain of
    the mapping with the template set. It ends with an exception only
    when a lookup misses: the exception is a [KeyError] and some template
    of the set has no level (keys that are no templates of the set are
    never noticed); and a cycle whose t1 has no level is never accepted
    by [is_valid_cycle]. *)
Theorem is_robust_raises_only_on_missing_key template_set alloc e :
  is_robust set_iter template_set alloc = Raise e →
  e = KeyError
  ∧ (∃ t, t ∈ templates template_set ∧ mapping alloc !! name t = None)
  ∧ ∀ t1 o1 p1 t2 o2 p2 co2 tn on pn cpn h,
      mapping alloc !! name t1 = None →
      is_valid_cycle t1 o1 p1 t2 o2 p2 co2 tn on pn cpn h alloc ≠ Ok true.
Proof.
  intros Hr. split; [|split].
  - destruct e; [|done]. by apply is_robust_no_assert in Hr.
  - assert (Hdec : total_on template_set alloc
                   ∨ ∃ t, t ∈ templates template_set
                          ∧ mapping alloc !! name t = None).
    { unfold total_on.
      induction (templates template_set) as [|t l IH].
      - left. by intros t Ht%elem_of_nil.
      - destruct (mapping alloc !! name t) as [il|] eqn:E.
        + destruct IH as [IH|(u & Hu & Hn)].
          * left. intros u [->|Hu]%elem_of_cons; [by eauto|by apply IH].
          * right. exists u. split; [by right|done].
        + right. exists t. split; [left|done]. }
    destruct Hdec as [Htot|Hmiss]; [|done].
    destruct (is_robust_total _ _ Htot) as (b & w & E). congruence.
  - intros t1 o1 p1 t2 o2 p2 co2 tn on pn cpn h Hmiss
      [_ Hv]%is_valid_cycle_true.
    rewrite condition_6_missing in Hv; done.
Qed.

(** C9. A template set of one template with a single operation whose
    writeset is empty is robust under every allocation, total or not. *)
Theorem single_read_only_robust t o alloc :
  operations t = [o] → writeset o = ∅ →
  is_robust set_iter (mkTemplateSet [t]) alloc = Ok (true, []).
Proof.
  intros Hops Hw. apply is_robust_true_iff. split; [done|].
  intros c Hc. exfalso.
  apply (elem_of_candidates set_iter set_iter_elem) in Hc as [Hwf Hp2].
  apply (elem_of_template_op_pairs set_iter set_iter_elem) in Hp2
    as [Ht2 Hp2]. simpl in Ht2.
  apply list_elem_of_singleton in Ht2. rewrite Ht2, Hops in Hp2.
  apply list_elem_of_singleton in Hp2.
  pose proof (wf_rw _ _ Hwf) as Hrw. revert Hrw.
  unfold is_rw_conflicting. rewrite Hp2, Hw.
  replace (readset (c_o1 c) ∩ ∅) with (∅ : gset string) by set_solver.
  rewrite size_empty. rewrite andb_true_iff, !bool_decide_eq_true. lia.
Qed.

(** C10. For a template set without templates [is_robust] returns
    [(True, {})] under every allocation. *)
Theorem empty_template_set_robust alloc :
  is_robust set_iter (mkTemplateSet []) alloc = Ok (true, []).
Proof.
  apply is_robust_true_iff. split; [done|]. intros c Hc. exfalso.
  apply (candidates_wf set_iter set_iter_elem) in Hc.
  by apply wf_t1, elem_of_nil in Hc.
Qed.
End Robustness.

(** ** Closing the cycle *)

Section Reachable.
Context `{NxGraph}.

End Reachable.

(** C6, where the code departs from it. In the closure that [is_robust]
    builds for the template AB with o1 = A, p1 = B and h = 2, the nodes
    (AB, B, N, IN) and (AB, A, N, OUT) are joined by an edge, already an
    edge of the pt-conflict-graph, and the pair meets every condition of
    the case of length > 3 for o2 = B, pn = A and the labels (N, N). The
    graph is undirected and the OUT node was inserted before the IN node,
    so the edge view yields the pair with the OUT node first and never with
    the IN node first; the test [nstart.k == IN] fails on it and
    [reachable] returns [False]. With the two operations of the template
    exchanged the closure has the same edge, the IN node is inserted first,
    and the same call returns [True]. *)
Theorem reachable_misses_reversed_edge :
  is_edge_valid nodeInB nodeOutA 2 = true
  ∧ ListGraph.adjacent nodeInB nodeOutA rtcAB = true
  ∧ (k nodeInB = IN ∧ k nodeOutA = OUT ∧ conn nodeInB = N ∧ conn nodeOutA = N
     ∧ is_conflicting (operation nodeInB) opB = true
     ∧ is_conflicting (operation nodeOutA) opA = true)
  ∧ yields nodeOutA nodeInB (@edges OrderedView_NxGraph rtcAB) = true
  ∧ yields nodeInB nodeOutA (@edges OrderedView_NxGraph rtcAB) = false
  ∧ @reachable OrderedView_NxGraph tAB opB opA N tAB opB opA N 2 rtcAB
    = false
  ∧ ListGraph.adjacent nodeInB nodeOutA rtcBA = true
  ∧ @reachable OrderedView_NxGraph tAB opB opA N tAB opB opA N 2 rtcBA
    = true.
Proof. vm_compute. repeat split. Qed.

(** ** The scan of condition (5) when the two anchors coincide *)

Lemma p1_not_after_o1_same o1 ops :
  p1_not_after_o1 o1 o1 ops = true ↔ o1 ∈ ops.
Proof.
  induction ops as [|op ops IH]; simpl.
  - split; [done|]. by intros Hin%elem_of_nil.
  - rewrite elem_of_cons. case_bool_decide; naive_solver.
Qed.

(** C4, as the code has it. When allocation[t1] is READ_COMMITTED, on is
    not rw-conflicting with p1, and p1 == o1: the scan of condition (5)
    compares each operation with p1 before it compares it with o1, so at the
    operation o1 of t1 it returns [False], and [is_valid_cycle] accepts no
    such cycle; the scan ends without rejecting only when o1 is no
    operation of t1. *)
Theorem condition_5_same_anchor t1 o1 on alloc :
  mapping alloc !! name t1 = Some READ_COMMITTED →
  is_rw_conflicting on o1 = false →
  (o1 ∈ operations t1 →
     condition_5 t1 o1 o1 on alloc = Ok (Some false)
     ∧ ∀ t2 o2 p2 co2 tn pn cpn h,
         is_valid_cycle t1 o1 o1 t2 o2 p2 co2 tn on pn cpn h alloc
         ≠ Ok true)
  ∧ (o1 ∉ operations t1 → condition_5 t1 o1 o1 on alloc = Ok None).
Proof.
  intros Hrc Hrw.
  pose proof (condition_5_ok t1 o1 o1 on alloc _ Hrc) as H5.
  unfold rejects_5 in H5. rewrite Hrw in H5. simpl in H5.
  split; intros Hin.
  - apply p1_not_after_o1_same in Hin as Hscan. rewrite Hscan in H5.
    split; [done|].
    intros t2 o2 p2 co2 tn pn cpn h [Hv _]%is_valid_cycle_true. congruence.
  - destruct (p1_not_after_o1 o1 o1 (operations t1)) eqn:E; [|done].
    by apply p1_not_after_o1_same in E.
Qed.

(** * The properties on the example workloads *)

Lemma insertion_order_elem (A : Type) (l : list A) (x : A) :
  x ∈ insertion_order A l ↔ x ∈ l.
Proof. reflexivity. Defined.

Lemma reverse_order_elem (A : Type) (l : list A) (x : A) :
  x ∈ reverse_order A l ↔ x ∈ l.
Proof. unfold reverse_order. apply elem_of_reverse. Qed.

Lemma all_serializable_robust_witness :
  (∀ t, t ∈ templates TS1 → mapping allSSI !! name t = Some SERIALIZABLE)
  ∧ is_robust insertion_order TS1 allSSI = Ok (true, []).
Proof.
  assert (Hssi : ∀ t, t ∈ templates TS1 →
                      mapping allSSI !! name t = Some SERIALIZABLE).
  { intros t Ht. apply list_elem_of_singleton in Ht. subst t.
    vm_compute. reflexivity. }
  split; [exact Hssi|].
  exact (proj1 (all_serializable_robust insertion_order insertion_order_elem
                  TS1 allSSI Hssi)).
Defined.

Lemma robust_monotone_witness :
  is_robust insertion_order TSupd updRC = Ok (true, [])
  ∧ is_robust insertion_order TSupd updSI = Ok (true, []).
Proof.
  assert (Hrc : is_robust insertion_order TSupd updRC = Ok (true, []))
    by (vm_compute; reflexivity).
  split; [exact Hrc|].
  refine (proj1 (robust_monotone insertion_order insertion_order_elem
                   TSupd updRC updSI [] _ _ _) Hrc).
  - intros t Ht. apply list_elem_of_singleton in Ht. subst t.
    vm_compute. eexists. reflexivity.
  - intros t Ht. apply list_elem_of_singleton in Ht. subst t.
    vm_compute. eexists. reflexivity.
  - intros t la lb Ht. apply list_elem_of_singleton in Ht. subst t.
    vm_compute. intros [= <-] [= <-]. discriminate.
Defined.

Lemma optimal_alloc_robust_witness :
  ∃ alloc w,
    optimal_alloc insertion_order TSupd = Ok alloc
    ∧ is_robust insertion_order TSupd alloc = Ok (true, w).
Proof.
  exact (optimal_alloc_robust insertion_order insertion_order_elem TSupd).
Defined.

Lemma condition_5_same_anchor_witness :
  mapping allRC !! name tRW = Some READ_COMMITTED
  ∧ is_rw_conflicting opW opR = false
  ∧ opR ∈ operations tRW
  ∧ condition_5 tRW opR opR opW allRC = Ok (Some false).
Proof.
  assert (Hrc : mapping allRC !! name tRW = Some READ_COMMITTED)
    by (vm_compute; reflexivity).
  assert (Hrw : is_rw_conflicting opW opR = false)
    by (vm_compute; reflexivity).
  assert (Hin : opR ∈ operations tRW) by (simpl; left).
  split; [exact Hrc|]. split; [exact Hrw|]. split; [exact Hin|].
  exact (proj1 (proj1 (condition_5_same_anchor tRW opR opW allRC Hrc Hrw)
                  Hin)).
Defined.

(** The claim C4 fails on the template that reads and then writes: with
    o1 = p1 the read, on the write, and t1 under READ_COMMITTED, the cycle
    passes conditions (2) to (4) and the scan of condition (5) returns
    [False]. *)
Lemma condition_5_same_anchor_counterexample :
  mapping allRC !! name tRW = Some READ_COMMITTED
  ∧ is_rw_conflicting opW opR = false
  ∧ condition_2_3 tRW opR opR tRW opR opW N tRW opW opR N 1 allRC = Ok None
  ∧ is_rw_conflicting opR opW = true
  ∧ condition_5 tRW opR opR opW allRC = Ok (Some false)
  ∧ is_valid_cycle tRW opR opR tRW opR opW N tRW opW opR N 1 allRC
    = Ok false.
Proof. vm_compute. repeat split; reflexivity. Qed.


(** The claim C5 fails on the first example: the two orders of iteration
    below both yield exactly the elements of each set, and on the same
    template set and allocation [is_robust] returns two different
    witnesses, one with h = 1 and one with h = 2. *)
Lemma is_robust_witness_depends_on_order :
  (∀ (A : Type) (l : list A) (x : A), x ∈ insertion_order A l ↔ x ∈ l)
  ∧ (∀ (A : Type) (l : list A) (x : A), x ∈ reverse_order A l ↔ x ∈ l)
  ∧ ∃ w1 w2,
      is_robust insertion_order TS1 allRC = Ok (false, w1)
      ∧ is_robust reverse_order TS1 allRC = Ok (false, w2)
      ∧ w1 !! 3%nat = Some ("h", WInt 1)
      ∧ w2 !! 3%nat = Some ("h", WInt 2)
      ∧ is_robust insertion_order TS1 allRC
        ≠ is_robust reverse_order TS1 allRC.
Proof.
  split; [exact insertion_order_elem|]. split; [exact reverse_order_elem|].
  eexists _, _.
  assert (H1 : is_robust insertion_order TS1 allRC = Ok (false, _))
    by (vm_compute; reflexivity).
  assert (H2 : is_robust reverse_order TS1 allRC = Ok (false, _))
    by (vm_compute; reflexivity).
  split; [exact H1|]. split; [exact H2|].
  split; [reflexivity|]. split; [reflexivity|].
  rewrite H1, H2. intros Heq. discriminate Heq.
Qed.

Lemma get_connectedness_sanity_witness :
  is_robust insertion_order TS1 allRC ≠ Raise AssertionError.
Proof.
  exact (proj1 (get_connectedness_sanity insertion_order insertion_order_elem
                  TS1 allRC)).
Defined.

Lemma is_robust_raises_only_on_missing_key_witness :
  is_robust insertion_order TS1 noLevels = Raise KeyError
  ∧ ∃ t, t ∈ templates TS1 ∧ mapping noLevels !! name t = None.
Proof.
  assert (Hr : is_robust insertion_order TS1 noLevels = Raise KeyError)
    by (vm_compute; reflexivity).
  split; [exact Hr|].
  exact (proj1 (proj2 (is_robust_raises_only_on_missing_key insertion_order
                         insertion_order_elem TS1 noLevels KeyError Hr))).
Defined.

(** The claim C8 fails on the template set of one read-only template with
    an allocation that gives no template a level: the domain of the mapping
    is not the template set, and [is_robust] returns [(True, {})]. *)
Lemma ill_domained_allocation_returns :
  dom (mapping readNoLevels) ≠ list_to_set (name <$> templates TSread)
  ∧ is_robust insertion_order TSread readNoLevels = Ok (true, []).
Proof.
  split; [|vm_compute; reflexivity].
  apply (bool_decide_unpack _). vm_compute. exact I.
Qed.

Lemma single_read_only_robust_witness :
  operations tRead = [opR] ∧ writeset opR = ∅
  ∧ is_robust insertion_order (mkTemplateSet [tRead]) readRC = Ok (true, []).
Proof.
  split; [reflexivity|]. split; [reflexivity|].
  exact (single_read_only_robust insertion_order insertion_order_elem
           tRead opR readRC eq_refl eq_refl).
Defined.

Lemma empty_template_set_robust_witness :
  is_robust insertion_order (mkTemplateSet []) allRC = Ok (true, []).
Proof.
  exact (empty_template_set_robust insertion_order insertion_order_elem
           allRC).
Defined.

(** * Further properties of the algorithm *)

(** ** Conflict algebra *)

Lemma intersection_nonempty (X Y : gset string) :
  0 < Z.of_nat (size (X ∩ Y)) ↔ ∃ x, x ∈ X ∧ x ∈ Y.
Proof.
  split.
  - intros Hpos. destruct (size_pos_elem_of (X ∩ Y)) as [x Hx]; [lia|].
    exists x. by apply elem_of_intersection in Hx.
  - intros (x & HX & HY).
    assert (Hne : size (X ∩ Y) ≠ 0%nat).
    { apply size_non_empty_iff. intros Hempty.
      assert (x ∈ X ∩ Y) as Hin by by apply elem_of_intersection.
      rewrite Hempty in Hin. by apply elem_of_empty in Hin. }
    lia.
Qed.

(** X1. The three conflict tests say what their names say: the operations
    are over the same relation and share an attribute, read by the first and
    written by the second (rw), written by the first and read by the second
    (wr), or written by both (ww). *)
Theorem conflict_tests_characterised a b :
  (is_rw_conflicting a b = true ↔
     relation a = relation b ∧ ∃ x, x ∈ readset a ∧ x ∈ writeset b)
  ∧ (is_wr_conflicting a b = true ↔
       relation a = relation b ∧ ∃ x, x ∈ writeset a ∧ x ∈ readset b)
  ∧ (is_ww_conflicting a b = true ↔
       relation a = relation b ∧ ∃ x, x ∈ writeset a ∧ x ∈ writeset b).
Proof.
  unfold is_rw_conflicting, is_wr_conflicting, is_ww_conflicting.
  rewrite !andb_true_iff, !bool_decide_eq_true, !intersection_nonempty.
  done.
Qed.

Lemma rw_wr_dual a b : is_rw_conflicting a b = is_wr_conflicting b a.
Proof.
  unfold is_rw_conflicting, is_wr_conflicting.
  rewrite (comm_L (∩) (readset a)). f_equal. by apply bool_decide_ext.
Qed.

Lemma ww_symmetric a b : is_ww_conflicting a b = is_ww_conflicting b a.
Proof.
  unfold is_ww_conflicting.
  rewrite (comm_L (∩) (writeset a)). f_equal. by apply bool_decide_ext.
Qed.

(** X2. rw and wr are each other's converse, ww is symmetric, and so
    [is_conflicting] is symmetric. *)
Theorem is_conflicting_symmetric a b :
  is_rw_conflicting a b = is_wr_conflicting b a
  ∧ is_ww_conflicting a b = is_ww_conflicting b a
  ∧ is_conflicting a b = is_conflicting b a.
Proof.
  split; [apply rw_wr_dual|]. split; [apply ww_symmetric|].
  unfold is_conflicting.
  rewrite (rw_wr_dual a b), <- (rw_wr_dual b a), (ww_symmetric a b).
  by destruct (is_wr_conflicting b a), (is_rw_conflicting b a).
Qed.

(** X3. Operations that write nothing do not conflict with each other, and
    an operation is never rw-conflicting with one that writes nothing. *)
Theorem read_only_operations_do_not_conflict a b :
  writeset b = ∅ →
  is_rw_conflicting a b = false
  ∧ (writeset a = ∅ → is_conflicting a b = false).
Proof.
  intros Hb.
  assert (Hrw : is_rw_conflicting a b = false).
  { unfold is_rw_conflicting. rewrite Hb.
    replace (readset a ∩ ∅) with (∅ : gset string) by set_solver.
    rewrite size_empty. apply andb_false_intro2. by apply bool_decide_eq_false_2. }
  split; [done|]. intros Ha.
  unfold is_conflicting, is_wr_conflicting, is_ww_conflicting.
  rewrite Hrw, Ha, Hb.
  replace (∅ ∩ readset b) with (∅ : gset string) by set_solver.
  replace (∅ ∩ ∅) with (∅ : gset string) by set_solver.
  rewrite size_empty. simpl.
  by rewrite andb_false_r.
Qed.

Lemma read_only_operations_do_not_conflict_witness :
  writeset opR = ∅
  ∧ is_rw_conflicting opW opR = false
  ∧ is_conflicting opR opR = false.
Proof.
  split; [reflexivity|].
  pose proof (read_only_operations_do_not_conflict opW opR eq_refl) as Hw.
  pose proof (read_only_operations_do_not_conflict opR opR eq_refl) as Hr.
  split; [exact (proj1 Hw)|exact (proj2 Hr eq_refl)].
Defined.

(** ** The connectedness propagator outside the enumeration *)

(** X4. [get_connectedness] serves the two values of h only: for every
    other h the sanity check fails, whatever the operations and labels. *)
Theorem get_connectedness_other_h target_op o co p cp h :
  h ≠ 1 → h ≠ 2 →
  get_connectedness target_op o co p cp h = Raise AssertionError.
Proof.
  intros H1 H2. rewrite get_connectedness_unfold.
  rewrite bool_decide_eq_false_2; [done|].
  by intros [[? _]|[? _]].
Qed.

Lemma get_connectedness_other_h_witness :
  get_connectedness opR opR O opW P 3 = Raise AssertionError.
Proof.
  apply (get_connectedness_other_h opR opR O opW P 3); discriminate.
Defined.

(** X5. The sanity check also fails when the target shares its variable
    with both o and p and their labels differ, unless h = 1 and the labels
    are O and P. *)
Theorem get_connectedness_clashing_labels target_op o co p cp h :
  variable target_op = variable o → variable target_op = variable p →
  co ≠ cp → h ≠ 1 ∨ co = N ∨ cp = N →
  get_connectedness target_op o co p cp h = Raise AssertionError.
Proof.
  intros Ho Hp Hne Hh. rewrite get_connectedness_unfold.
  rewrite bool_decide_eq_false_2; [done|].
  unfold conn_set.
  rewrite !(bool_decide_eq_true_2 (variable target_op = _)) by done.
  intros [[-> Hin]|[-> Hin]]; revert Hin;
    destruct co, cp; try done;
    try (by destruct Hh as [?|[?|?]]);
    apply (bool_decide_unpack _); vm_compute; exact I.
Qed.

Lemma get_connectedness_clashing_labels_witness :
  get_connectedness opR opR N opR O 1 = Raise AssertionError.
Proof.
  apply (get_connectedness_clashing_labels opR opR N opR O 1);
    [reflexivity|reflexivity|discriminate|right; left; reflexivity].
Defined.

Lemma conn_set_anchor_bool op1 o1 p1 h :
  h = 1 ∨ h = 2 →
  bool_decide (N ∈ conn_set op1 o1 O p1 P h)
  = negb (bool_decide (variable op1 = variable o1))
    && negb (bool_decide (variable op1 = variable p1))
  ∧ bool_decide (O ∈ conn_set op1 o1 O p1 P h)
    = (if bool_decide (h = 1)
       then bool_decide (variable op1 = variable o1)
            || bool_decide (variable op1 = variable p1)
       else bool_decide (variable op1 = variable o1))
  ∧ bool_decide (P ∈ conn_set op1 o1 O p1 P h)
    = (if bool_decide (h = 1)
       then bool_decide (variable op1 = variable o1)
            || bool_decide (variable op1 = variable p1)
       else bool_decide (variable op1 = variable p1)).
Proof.
  intros [->| ->]; unfold conn_set;
    destruct (bool_decide (variable op1 = variable o1)),
             (bool_decide (variable op1 = variable p1));
    vm_compute; done.
Qed.

(** X6. The labels of an operation of t1 relative to the anchors, as
    [is_valid_cycle] asks for them: a returned set holds N exactly when the
    operation shares its variable with neither o1 nor p1; for h = 2 it holds
    O exactly when it shares o1's variable and P exactly when it shares
    p1's; for h = 1 it holds both O and P as soon as it shares either. *)
Theorem anchor_connectedness op1 o1 p1 h result :
  get_connectedness op1 o1 O p1 P h = Ok result →
  (N ∈ result ↔
     variable op1 ≠ variable o1 ∧ variable op1 ≠ variable p1)
  ∧ (h = 2 →
       (O ∈ result ↔ variable op1 = variable o1)
       ∧ (P ∈ result ↔ variable op1 = variable p1))
  ∧ (h = 1 →
       (O ∈ result ↔
          variable op1 = variable o1 ∨ variable op1 = variable p1)
       ∧ (P ∈ result ↔
            variable op1 = variable o1 ∨ variable op1 = variable p1)).
Proof.
  rewrite get_connectedness_unfold. case_bool_decide as Hpost; [|done].
  intros [= <-].
  assert (Hh : h = 1 ∨ h = 2) by (destruct Hpost as [[? _]|[? _]]; auto).
  destruct (conn_set_anchor_bool op1 o1 p1 h Hh) as (HN & HO & HP).
  rewrite <- (bool_decide_eq_true (N ∈ _)), <- (bool_decide_eq_true (O ∈ _)),
    <- (bool_decide_eq_true (P ∈ _)), HN, HO, HP.
  rewrite andb_true_iff, !negb_true_iff, !bool_decide_eq_false.
  split; [done|]. split; intros ->.
  - rewrite (bool_decide_eq_false_2 (2 = 1)) by done.
    by rewrite !bool_decide_eq_true.
  - rewrite (bool_decide_eq_true_2 (1 = 1)) by done.
    by rewrite orb_true_iff, !bool_decide_eq_true.
Qed.

Lemma anchor_connectedness_witness :
  get_connectedness opR opR O opW P 2 = Ok {[O]}
  ∧ (N ∈ ({[O]} : gset Conn) ↔
       variable opR ≠ variable opR ∧ variable opR ≠ variable opW).
Proof.
  assert (Hr : get_connectedness opR opR O opW P 2 = Ok {[O]})
    by (vm_compute; reflexivity).
  split; [exact Hr|].
  exact (proj1 (anchor_connectedness opR opR opW 2 {[O]} Hr)).
Defined.

(** ** Nodes and edges of the pt-conflict-graph *)

(** X7. A node is refused exactly when its label is O or P and some
    operation of t1 on the variable of the anchor of that label (o1 for O,
    p1 for P) conflicts with an operation of the node's template on the
    variable of the node's operation. *)
Theorem is_node_valid_false_iff node o1 p1 t1 :
  is_node_valid node o1 p1 t1 = false ↔
  conn node ≠ N
  ∧ ∃ op1 op,
      op1 ∈ operations t1 ∧ op ∈ operations (template node)
      ∧ ((variable op1 = variable o1 ∧ conn node = O)
         ∨ (variable op1 = variable p1 ∧ conn node = P))
      ∧ variable op = variable (operation node)
      ∧ is_conflicting op1 op = true.
Proof.
  unfold is_node_valid. case_bool_decide as HN.
  { split; [done|]. by intros [? _]. }
  rewrite negb_false_iff, existsb_exists. split.
  - intros (op1 & Hop1%list_elem_of_In & Hc). split; [done|].
    apply andb_true_iff in Hc as [Hm Hc].
    apply existsb_exists in Hc as (op & Hop%list_elem_of_In & Hc).
    apply andb_true_iff in Hc as [Hv Hc]. apply bool_decide_eq_true in Hv.
    exists op1, op. repeat split; try done.
    apply orb_true_iff in Hm as [Hm|Hm];
      apply andb_true_iff in Hm as [H1 H2];
      apply bool_decide_eq_true in H1, H2; auto.
  - intros (_ & op1 & op & Hop1 & Hop & Hm & Hv & Hc).
    exists op1. split; [by apply list_elem_of_In|].
    apply andb_true_iff. split.
    + apply orb_true_iff.
      destruct Hm as [[H1 H2]|[H1 H2]]; [left|right];
        apply andb_true_iff; by rewrite !bool_decide_eq_true.
    + apply existsb_exists. exists op. split; [by apply list_elem_of_In|].
      apply andb_true_iff. by rewrite bool_decide_eq_true.
Qed.

(** X8. An edge joins either an OUT node to an IN node with the same label
    and conflicting operations, or an IN node to an OUT node of the same
    template; inside a template the label is kept or goes from O to P, from
    O to N or from N to P, never from P to O or N and never from N to O. No
    node has an edge to itself. *)
Theorem is_edge_valid_shape node1 node2 h :
  (is_edge_valid node1 node2 h = true →
     (k node1 = OUT ∧ k node2 = IN ∧ conn node1 = conn node2
      ∧ is_conflicting (operation node1) (operation node2) = true)
     ∨ (k node1 = IN ∧ k node2 = OUT
        ∧ name (template node1) = name (template node2)
        ∧ (conn node1, conn node2)
          ∈ [(O, O); (P, P); (N, N); (O, P); (O, N); (N, P)]))
  ∧ is_edge_valid node1 node1 h = false.
Proof.
  split.
  - unfold is_edge_valid, Template_eqb.
    destruct (k node1), (k node2); simpl; try done.
    + case_bool_decide as Ht; simpl; [|done].
      intros Hv. right. repeat split; try done.
      destruct (conn node1), (conn node2); simpl in Hv;
        repeat case_bool_decide; simpl in Hv; try done;
        rewrite ?elem_of_cons; naive_solver.
    + rewrite andb_true_iff, bool_decide_eq_true. intros [Hc Hcf].
      by left.
  - unfold is_edge_valid. by destruct (k node1).
Qed.

(** X9. The assumption h matters to an edge only through [h == 1], and it
    only adds edges: an edge valid for some h is valid for h = 1. *)
Theorem is_edge_valid_h node1 node2 h :
  (h ≠ 1 → is_edge_valid node1 node2 h = is_edge_valid node1 node2 2)
  ∧ (is_edge_valid node1 node2 h = true →
     is_edge_valid node1 node2 1 = true).
Proof.
  unfold is_edge_valid. split.
  - intros Hh. by rewrite (bool_decide_eq_false_2 (h = 1)) by done.
  - destruct (_ && _); [done|]. destruct (_ && _ && _); [|done].
    rewrite (bool_decide_eq_true_2 (1 = 1)) by done.
    rewrite !orb_true_iff, !andb_true_iff. intuition.
Qed.

Lemma foldl_invariant {A B} (Inv : A → Prop) (f : A → B → A) (l : list B) a :
  Inv a → (∀ a x, x ∈ l → Inv a → Inv (f a x)) → Inv (foldl f a l).
Proof.
  revert a. induction l as [|x l IH]; intros a Ha Hstep; simpl; [done|].
  apply IH.
  - apply Hstep; [left|done].
  - intros a' y Hy. apply Hstep. by right.
Qed.

Section GraphBuilder.
Context `{NxGraph}.

(** What the builder needs of the graph library: a new graph is empty,
    [add_node] adds at most its node and no edge, [add_edge] adds at most
    its end points and its edge, which the edge view may yield in either
    direction. *)
Hypothesis nodes_nx_Graph : nodes nx_Graph = [].
Hypothesis edges_nx_Graph : edges nx_Graph = [].
Hypothesis nodes_add_node :
  ∀ n g x, x ∈ nodes (add_node n g) → x ∈ nodes g ∨ x = n.
Hypothesis edges_add_node :
  ∀ n g e, e ∈ edges (add_node n g) → e ∈ edges g.
Hypothesis nodes_add_edge :
  ∀ u v g x, x ∈ nodes (add_edge u v g) → x ∈ nodes g ∨ x = u ∨ x = v.
Hypothesis edges_add_edge :
  ∀ u v g e,
    e ∈ edges (add_edge u v g) → e ∈ edges g ∨ e = (u, v) ∨ e = (v, u).

(** X10. The graph [pt_conflict_graph] builds is sound: each of its nodes
    is an operation of a template of the set that passed [is_node_valid],
    and each of its edges joins two such nodes and passed [is_edge_valid]
    in one of its two directions. *)
Theorem pt_conflict_graph_sound o1 p1 t1 h template_set :
  let graph := pt_conflict_graph o1 p1 t1 h template_set in
  let good := fun n =>
    template n ∈ templates template_set
    ∧ operation n ∈ operations (template n)
    ∧ is_node_valid n o1 p1 t1 = true in
  (∀ n, n ∈ nodes graph → good n)
  ∧ (∀ a b, (a, b) ∈ edges graph →
       good a ∧ good b
       ∧ (is_edge_valid a b h = true ∨ is_edge_valid b a h = true)).
Proof.
  intros graph good. unfold pt_conflict_graph in graph.
  set (all_nodes := (t ← templates template_set; o ← operations t;
                     c ← [O; P; N]; k ← [IN; OUT]; [mkGraphNode t o c k]))
    in graph.
  set (g0 := foldl (fun g node =>
               if is_node_valid node o1 p1 t1 then add_node node g else g)
             nx_Graph all_nodes) in graph.
  assert (Hg0 : (∀ n, n ∈ nodes g0 → good n) ∧ edges g0 = []).
  { apply (foldl_invariant
             (fun g => (∀ n, n ∈ nodes g → good n) ∧ edges g = [])).
    - split; [|done]. rewrite nodes_nx_Graph. by intros n Hn%elem_of_nil.
    - intros g node Hnode [Hn He].
      destruct (is_node_valid node o1 p1 t1) eqn:Hv; [|done]. split.
      + intros n [Hin| ->]%nodes_add_node; [by apply Hn|].
        unfold all_nodes in Hnode.
        apply list_elem_of_bind in Hnode as (t & Hnode & Ht).
        apply list_elem_of_bind in Hnode as (o & Hnode & Ho).
        apply list_elem_of_bind in Hnode as (c & Hnode & _).
        apply list_elem_of_bind in Hnode as (k' & Hnode & _).
        apply list_elem_of_singleton in Hnode. subst node. by split.
      + destruct (edges (add_node node g)) as [|e l] eqn:E; [done|].
        assert (He' : e ∈ edges g)
          by (apply (edges_add_node node); rewrite E; left).
        rewrite He in He'. by apply elem_of_nil in He'. }
  destruct Hg0 as [Hn0 He0].
  assert (Hg : (∀ n, n ∈ nodes graph → good n)
               ∧ ∀ a b, (a, b) ∈ edges graph →
                   good a ∧ good b
                   ∧ (is_edge_valid a b h = true
                      ∨ is_edge_valid b a h = true)).
  { apply (foldl_invariant
             (fun g => (∀ n, n ∈ nodes g → good n)
                       ∧ ∀ a b, (a, b) ∈ edges g →
                           good a ∧ good b
                           ∧ (is_edge_valid a b h = true
                              ∨ is_edge_valid b a h = true))).
    - split; [done|]. intros a b Hab. rewrite He0 in Hab.
      by apply elem_of_nil in Hab.
    - intros g [node1 node2] Hpair [Hn He].
      apply elem_of_product in Hpair as [H1%Hn0 H2%Hn0].
      destruct (is_edge_valid node1 node2 h) eqn:Hv; [|done]. split.
      + intros n [Hin|[-> | ->]]%nodes_add_edge; [by apply Hn|done..].
      + intros a b [Hin|[[= -> ->]|[= -> ->]]]%edges_add_edge;
          [by apply He|by auto..]. }
  exact Hg.
Qed.
End GraphBuilder.

(** The list-based graph keeps the builder's assumptions. *)
Lemma ListGraph_nodes_add_node n g x :
  x ∈ ListGraph.g_nodes (ListGraph.add_node n g) →
  x ∈ ListGraph.g_nodes g ∨ x = n.
Proof.
  unfold ListGraph.add_node. destruct (ListGraph.has_node n g); simpl;
    [by left|].
  intros [Hx|Hx%list_elem_of_singleton]%elem_of_app; auto.
Qed.

Lemma ListGraph_edges_add_node n g e :
  e ∈ ListGraph.g_edges (ListGraph.add_node n g) → e ∈ ListGraph.g_edges g.
Proof. unfold ListGraph.add_node. by destruct (ListGraph.has_node n g). Qed.

Lemma ListGraph_nodes_add_edge u v g x :
  x ∈ ListGraph.g_nodes (ListGraph.add_edge u v g) →
  x ∈ ListGraph.g_nodes g ∨ x = u ∨ x = v.
Proof.
  unfold ListGraph.add_edge.
  destruct (ListGraph.adjacent u v _); simpl;
    intros [[Hx|Hx]%ListGraph_nodes_add_node|Hx]%ListGraph_nodes_add_node;
    auto.
Qed.

Lemma ListGraph_edges_add_edge u v g e :
  e ∈ ListGraph.g_edges (ListGraph.add_edge u v g) →
  e ∈ ListGraph.g_edges g ∨ e = (u, v) ∨ e = (v, u).
Proof.
  unfold ListGraph.add_edge. destruct (ListGraph.adjacent u v _); simpl.
  - intros He%ListGraph_edges_add_node%ListGraph_edges_add_node. by left.
  - intros [He|He%list_elem_of_singleton]%elem_of_app; [|by auto].
    apply ListGraph_edges_add_node, ListGraph_edges_add_node in He.
    by left.
Qed.

Lemma pt_conflict_graph_sound_witness :
  nodes nx_Graph = []
  ∧ ∀ n, n ∈ nodes (pt_conflict_graph opR opW tRW 1 TS1) →
      template n ∈ templates TS1
      ∧ operation n ∈ operations (template n)
      ∧ is_node_valid n opR opW tRW = true.
Proof.
  split; [reflexivity|].
  exact (proj1 (pt_conflict_graph_sound eq_refl eq_refl
                  ListGraph_nodes_add_node ListGraph_edges_add_node
                  ListGraph_nodes_add_edge ListGraph_edges_add_edge
                  opR opW tRW 1 TS1)).
Defined.

(** ** Closing the cycle, continued *)

Lemma if_chain_true (c1 c2 c3 : bool) :
  (if c1 then true else if c2 then true else c3) = true
  ↔ c1 = true ∨ c2 = true ∨ c3 = true.
Proof. destruct c1, c2, c3; intuition discriminate. Qed.

Section ReachableMonotone.
Context `{NxGraph}.

(** X11. [reachable] grows with the closure and with the assumption that
    the anchors are connected: a cycle that closes for some h through a
    closure closes for h = 1 through every closure with at least the same
    edges. *)
Theorem reachable_monotone t2 o2 p2 co2 tn on pn cpn h rtc rtc' :
  (∀ e, e ∈ edges rtc → e ∈ edges rtc') →
  reachable t2 o2 p2 co2 tn on pn cpn h rtc = true →
  reachable t2 o2 p2 co2 tn on pn cpn 1 rtc' = true.
Proof.
  intros Hsub. unfold reachable. rewrite !if_chain_true.
  rewrite (bool_decide_eq_true_2 (1 = 1)) by done.
  intros [H1|[H2|H3]].
  - left. revert H1. rewrite !andb_true_iff, !orb_true_iff, !andb_true_iff.
    intuition.
  - right. left. revert H2.
    rewrite !andb_true_iff, !orb_true_iff, !andb_true_iff. intuition.
  - right. right. apply existsb_exists in H3 as (e & He & Hc).
    apply existsb_exists. exists e. split; [|done].
    by apply list_elem_of_In, Hsub, list_elem_of_In.
Qed.
End ReachableMonotone.

Lemma reachable_monotone_witness :
  reachable tRW opR opW N tRW opW opW N 2 nx_Graph = true
  ∧ reachable tRW opR opW N tRW opW opW N 1 nx_Graph = true.
Proof.
  assert (Hr : reachable tRW opR opW N tRW opW opW N 2 nx_Graph = true)
    by (vm_compute; reflexivity).
  split; [exact Hr|].
  exact (reachable_monotone tRW opR opW N tRW opW opW N 2 nx_Graph nx_Graph
           (fun e He => He) Hr).
Defined.

(** ** What a valid cycle needs *)

Lemma is_valid_cycle_true_conditions
    t1 o1 p1 t2 o2 p2 co2 tn on pn cpn h alloc :
  is_valid_cycle t1 o1 p1 t2 o2 p2 co2 tn on pn cpn h alloc = Ok true →
  is_rw_conflicting o1 p2 = true
  ∧ condition_5 t1 o1 p1 on alloc = Ok None
  ∧ condition_6 t1 t2 tn alloc = Ok None.
Proof.
  intros Hv. split; [|by eapply is_valid_cycle_true].
  revert Hv. unfold is_valid_cycle.
  destruct (condition_2_3 _ _ _ _ _ _ _ _ _ _ _ _ _) as [[b|]|e] eqn:E23;
    simpl; try done.
  { apply condition_2_3_Some in E23 as ->. done. }
  by destruct (is_rw_conflicting o1 p2).
Qed.

(** X12. What [is_valid_cycle] requires of a cycle it accepts: o1 is
    rw-conflicting with p2; t1 has a level; on is rw-conflicting with p1,
    or t1 runs under READ_COMMITTED and the scan of t1 does not meet p1
    before or at o1; and t1, t2, tn are not all three SERIALIZABLE. *)
Theorem is_valid_cycle_requires t1 o1 p1 t2 o2 p2 co2 tn on pn cpn h alloc :
  is_valid_cycle t1 o1 p1 t2 o2 p2 co2 tn on pn cpn h alloc = Ok true →
  is_rw_conflicting o1 p2 = true
  ∧ ∃ l1,
      mapping alloc !! name t1 = Some l1
      ∧ (is_rw_conflicting on p1 = true
         ∨ (l1 = READ_COMMITTED
            ∧ p1_not_after_o1 o1 p1 (operations t1) = false))
      ∧ ¬ (l1 = SERIALIZABLE
           ∧ mapping alloc !! name t2 = Some SERIALIZABLE
           ∧ mapping alloc !! name tn = Some SERIALIZABLE).
Proof.
  intros (Hrw & H5 & H6)%is_valid_cycle_true_conditions. split; [done|].
  destruct (mapping alloc !! name t1) as [l1|] eqn:Hl1;
    [|by rewrite condition_6_missing in H6].
  exists l1. split; [done|]. split.
  - rewrite (condition_5_ok _ _ _ _ _ l1) in H5 by done.
    unfold rejects_5 in H5.
    destruct (is_rw_conflicting on p1); [by left|]. right.
    simpl in H5. case_bool_decide as Hne; simpl in H5; [done|].
    split; [by destruct l1|].
    by destruct (p1_not_after_o1 o1 p1 (operations t1)).
  - intros (-> & H2 & Hn).
    by rewrite condition_6_all_serializable in H6.
Qed.

Lemma is_valid_cycle_requires_witness :
  is_valid_cycle tRW opR opW tRW opR opW N tRW opR opR P 1 allRC = Ok true
  ∧ is_rw_conflicting opR opW = true.
Proof.
  assert (Hv : is_valid_cycle tRW opR opW tRW opR opW N tRW opR opR P 1
                 allRC = Ok true) by (vm_compute; reflexivity).
  split; [exact Hv|].
  exact (proj1 (is_valid_cycle_requires tRW opR opW tRW opR opW N
                  tRW opR opR P 1 allRC Hv)).
Defined.

(** X13. [is_valid_cycle] reads the allocation at t1, t2 and tn only: two
    allocations that agree on these three templates give the same answer,
    or the same exception. *)
Theorem is_valid_cycle_three_levels
    t1 o1 p1 t2 o2 p2 co2 tn on pn cpn h A B :
  mapping A !! name t1 = mapping B !! name t1 →
  mapping A !! name t2 = mapping B !! name t2 →
  mapping A !! name tn = mapping B !! name tn →
  is_valid_cycle t1 o1 p1 t2 o2 p2 co2 tn on pn cpn h A
  = is_valid_cycle t1 o1 p1 t2 o2 p2 co2 tn on pn cpn h B.
Proof.
  intros H1 H2 Hn.
  assert (L1 : lookup_mapping A t1 = lookup_mapping B t1)
    by (unfold lookup_mapping; by rewrite H1).
  assert (L2 : lookup_mapping A t2 = lookup_mapping B t2)
    by (unfold lookup_mapping; by rewrite H2).
  assert (Ln : lookup_mapping A tn = lookup_mapping B tn)
    by (unfold lookup_mapping; by rewrite Hn).
  unfold is_valid_cycle, condition_2_3, condition_5, condition_6,
    condition_7_8, mapping_is.
  by rewrite L1, L2, Ln.
Qed.

Lemma is_valid_cycle_three_levels_witness :
  mapping allRC !! name tRW = mapping allRCextra !! name tRW
  ∧ is_valid_cycle tRW opR opW tRW opR opW N tRW opR opR P 1 allRC
    = is_valid_cycle tRW opR opW tRW opR opW N tRW opR opR P 1 allRCextra.
Proof.
  assert (Hl : mapping allRC !! name tRW = mapping allRCextra !! name tRW)
    by (vm_compute; reflexivity).
  split; [exact Hl|].
  exact (is_valid_cycle_three_levels tRW opR opW tRW opR opW N
           tRW opR opR P 1 allRC allRCextra Hl Hl Hl).
Defined.

(** ** The oracle, continued *)

Section OracleAnswers.
Context `{NxGraph}.
Variable set_iter : ∀ A : Type, list A → list A.
Hypothesis set_iter_elem :
  ∀ (A : Type) (l : list A) (x : A), x ∈ set_iter A l ↔ x ∈ l.

(** X15. On a total allocation [is_robust] answers [True] exactly when no
    candidate of the enumeration is both valid and reachable. *)
Theorem is_robust_true_iff_no_cycle template_set alloc :
  total_on template_set alloc →
  is_robust set_iter template_set alloc = Ok (true, []) ↔
  ∀ c, c ∈ candidates set_iter template_set →
       ¬ (cycle_valid alloc c = Ok true
          ∧ cycle_reachable template_set c = true).
Proof.
  intros Htot. rewrite is_robust_true_iff. split.
  - intros [_ Hall] c Hc [Hv Hr]. specialize (Hall c Hc).
    apply cycle_test_Next in Hall as [Hf|[_ Hf]]; congruence.
  - intros Hall. split; [done|]. intros c Hc. apply cycle_test_Next.
    destruct (cycle_valid_total set_iter set_iter_elem _ _ _ Htot Hc)
      as (l1 & l2 & ln & _ & _ & _ & Hv).
    rewrite Hv. destruct (valid_at_levels _ _ _ _ _ _ _ _ _ _ _ _ _ _ _)
      eqn:E; [|by left].
    right. split; [done|].
    destruct (cycle_reachable template_set c) eqn:Hr; [|done].
    exfalso. apply (Hall c Hc). by rewrite Hv.
Qed.

(** X16. A template set in which no operation writes is robust under every
    allocation, total or not: no pair passes the rw filter, so no level is
    ever looked up. *)
Theorem read_only_workload_robust template_set alloc :
  (∀ t o, t ∈ templates template_set → o ∈ operations t →
          writeset o = ∅) →
  is_robust set_iter template_set alloc = Ok (true, []).
Proof.
  intros Hro. apply is_robust_true_iff. split; [done|].
  intros c Hc. exfalso.
  apply (elem_of_candidates set_iter set_iter_elem) in Hc as [Hwf Hp2].
  apply (elem_of_template_op_pairs set_iter set_iter_elem) in Hp2
    as [Ht2 Hp2].
  pose proof (wf_rw _ _ Hwf) as Hrw. revert Hrw.
  unfold is_rw_conflicting. rewrite (Hro _ _ Ht2 Hp2).
  replace (readset (c_o1 c) ∩ ∅) with (∅ : gset string) by set_solver.
  rewrite size_empty. rewrite andb_true_iff, !bool_decide_eq_true. lia.
Qed.
End OracleAnswers.

Lemma is_robust_true_iff_no_cycle_witness :
  total_on TSupd updRC
  ∧ ∀ c, c ∈ candidates insertion_order TSupd →
         ¬ (cycle_valid updRC c = Ok true
            ∧ cycle_reachable TSupd c = true).
Proof.
  assert (Htot : total_on TSupd updRC).
  { intros t Ht. apply list_elem_of_singleton in Ht. subst t.
    vm_compute. eexists. reflexivity. }
  split; [exact Htot|].
  apply (proj1 (is_robust_true_iff_no_cycle insertion_order
                  insertion_order_elem TSupd updRC Htot)).
  vm_compute. reflexivity.
Defined.

Lemma read_only_workload_robust_witness :
  (∀ t o, t ∈ templates TSread → o ∈ operations t → writeset o = ∅)
  ∧ is_robust insertion_order TSread readNoLevels = Ok (true, []).
Proof.
  assert (Hro : ∀ t o, t ∈ templates TSread → o ∈ operations t →
                       writeset o = ∅).
  { intros t o Ht Ho. apply list_elem_of_singleton in Ht. subst t.
    apply list_elem_of_singleton in Ho. subst o. reflexivity. }
  split; [exact Hro|].
  exact (read_only_workload_robust insertion_order insertion_order_elem
           TSread readNoLevels Hro).
Defined.

(** ** The optimizer, continued *)

Lemma for_state_split_inv {A S} (Inv : list A → list A → S → Prop)
    (body : S → A → Result S) (s : S) (l : list A) :
  Inv [] l s →
  (∀ done x todo s,
     l = (done ++ x :: todo)%list → Inv done (x :: todo) s →
     ∃ s', body s x = Ok s' ∧ Inv (done ++ [x])%list todo s') →
  ∃ s', for_state body s l = Ok s' ∧ Inv l [] s'.
Proof.
  intros Hs Hstep.
  assert (Haux : ∀ todo done s,
    l = (done ++ todo)%list → Inv done todo s →
    ∃ s', for_state body s todo = Ok s' ∧ Inv l [] s').
  { induction todo as [|x todo IH]; intros done s0 Hl Hinv; simpl.
    - exists s0. split; [done|]. by rewrite Hl, app_nil_r.
    - destruct (Hstep done x todo s0 Hl Hinv) as (s' & -> & Hinv'). simpl.
      apply (IH (done ++ [x])%list); [|done].
      by rewrite <- app_assoc. }
  by apply (Haux l []).
Qed.

Lemma level_le_of_lt a b : level_lt a b → level_le a b.
Proof. unfold level_lt, level_le. lia. Qed.

Lemma level_lt_serializable a :
  level_lt a SERIALIZABLE → level_le a SNAPSHOT_ISOLATION.
Proof. unfold level_lt, level_le. destruct a; simpl; lia. Qed.

Lemma level_lt_snapshot a :
  level_lt a SNAPSHOT_ISOLATION → a = READ_COMMITTED.
Proof. unfold level_lt. destruct a; simpl; (done || lia). Qed.

Lemma level_lt_read_committed a : ¬ level_lt a READ_COMMITTED.
Proof. unfold level_lt. destruct a; simpl; lia. Qed.

Lemma level_le_read_committed a : level_le READ_COMMITTED a.
Proof. unfold level_le. destruct a; simpl; lia. Qed.

Lemma mapping_le_refl m : mapping_le m m.
Proof. intros key la lb Ha Hb. rewrite Ha in Hb. injection Hb as <-. apply level_le_refl. Qed.

Lemma mapping_le_insert key a b m :
  level_le a b → mapping_le (<[key := a]> m) (<[key := b]> m).
Proof.
  intros Hab k la lb. rewrite !lookup_insert. case_decide.
  - by intros [= <-] [= <-].
  - intros Ha Hb. rewrite Ha in Hb. injection Hb as <-. apply level_le_refl.
Qed.

Lemma mapping_le_insert_l key a m :
  (∀ b, m !! key = Some b → level_le a b) → mapping_le (<[key := a]> m) m.
Proof.
  intros Hab k la lb. rewrite lookup_insert. case_decide as Hk.
  - subst k. intros [= <-] Hb. by apply Hab.
  - intros Ha Hb. rewrite Ha in Hb. injection Hb as <-. apply level_le_refl.
Qed.

Lemma mapping_le_insert_mono key v A B :
  mapping_le A B → mapping_le (<[key := v]> A) (<[key := v]> B).
Proof.
  intros HAB k la lb. rewrite !lookup_insert. case_decide.
  - intros [= <-] [= <-]. apply level_le_refl.
  - apply HAB.
Qed.

Lemma initial_mapping_dom (l : list Template)
    (m : gmap string IsolationLevel) :
  dom (foldl (fun m t => <[name t := SERIALIZABLE]> m) m l)
  = dom m ∪ list_to_set (name <$> l).
Proof.
  revert m. induction l as [|t l IH]; intros m; simpl.
  - set_solver.
  - rewrite IH, dom_insert_L. set_solver.
Qed.

Section Optimizer.
Context `{NxGraph}.
Variable set_iter : ∀ A : Type, list A → list A.
Hypothesis set_iter_elem :
  ∀ (A : Type) (l : list A) (x : A), x ∈ set_iter A l ↔ x ∈ l.

Lemma is_robust_mapping_eq template_set A B :
  mapping A = mapping B →
  is_robust set_iter template_set A = is_robust set_iter template_set B.
Proof. destruct A, B. simpl. by intros ->. Qed.

(** Lowering levels keeps an allocation non-robust. *)
Lemma is_robust_false_down template_set A B wb :
  total_on template_set A → total_on template_set B →
  mapping_le (mapping A) (mapping B) →
  is_robust set_iter template_set B = Ok (false, wb) →
  ∃ wa, is_robust set_iter template_set A = Ok (false, wa).
Proof.
  intros HA HB Hle HrB.
  destruct (is_robust_total set_iter set_iter_elem _ _ HA)
    as ([] & wa & HrA); [|by eauto].
  apply (is_robust_mono set_iter set_iter_elem _ A B) in HrA;
    [congruence|done..|].
  intros t la lb _. apply Hle.
Qed.

Lemma is_robust_true_up template_set A B :
  total_on template_set A → total_on template_set B →
  (∀ t la lb, t ∈ templates template_set →
     mapping A !! name t = Some la → mapping B !! name t = Some lb →
     level_le la lb) →
  is_robust set_iter template_set A = Ok (true, []) →
  is_robust set_iter template_set B = Ok (true, []).
Proof. apply is_robust_mono. exact set_iter_elem. Qed.

(** One round of the optimizer on a total allocation: it ends in one of
    three ways. *)
Lemma optimal_step_cases template_set alloc t :
  total_on template_set alloc →
  let alloc1 := set_mapping alloc t SNAPSHOT_ISOLATION in
  let alloc2 := set_mapping alloc1 t READ_COMMITTED in
  ∃ new,
    (let alloc := set_mapping alloc t SNAPSHOT_ISOLATION in
     let! r := is_robust set_iter template_set alloc in
     if negb r.1 then Ok (set_mapping alloc t SERIALIZABLE)
     else
       let alloc := set_mapping alloc t READ_COMMITTED in
       let! r := is_robust set_iter template_set alloc in
       if negb r.1 then Ok (set_mapping alloc t SNAPSHOT_ISOLATION)
       else Ok alloc) = Ok new
    ∧ (((∃ w, is_robust set_iter template_set alloc1 = Ok (false, w))
        ∧ new = set_mapping alloc1 t SERIALIZABLE)
       ∨ (is_robust set_iter template_set alloc1 = Ok (true, [])
          ∧ (∃ w, is_robust set_iter template_set alloc2 = Ok (false, w))
          ∧ new = set_mapping alloc2 t SNAPSHOT_ISOLATION)
       ∨ (is_robust set_iter template_set alloc1 = Ok (true, [])
          ∧ is_robust set_iter template_set alloc2 = Ok (true, [])
          ∧ new = alloc2)).
Proof.
  intros Htot alloc1 alloc2. simpl.
  assert (Htot1 : total_on template_set alloc1)
    by by apply total_on_set_mapping.
  assert (Htot2 : total_on template_set alloc2)
    by by apply total_on_set_mapping.
  destruct (is_robust_total set_iter set_iter_elem _ _ Htot1)
    as (b1 & w1 & E1).
  fold alloc1. rewrite E1. simpl. destruct b1; simpl.
  - apply is_robust_true_iff in E1 as E1'. destruct E1' as [-> _].
    destruct (is_robust_total set_iter set_iter_elem _ _ Htot2)
      as (b2 & w2 & E2).
    fold alloc2. rewrite E2. simpl. destruct b2; simpl.
    + apply is_robust_true_iff in E2 as E2'. destruct E2' as [-> _].
      eexists. split; [done|]. right. right. done.
    + eexists. split; [done|]. right. left. by eauto.
  - eexists. split; [done|]. left. by eauto.
Qed.

(** X17. [optimal_alloc] returns an allocation of the template set it was
    given, whose mapping has exactly the templates of the set as keys. *)
Theorem optimal_alloc_domain template_set alloc :
  optimal_alloc set_iter template_set = Ok alloc →
  templateset alloc = template_set
  ∧ dom (mapping alloc) = list_to_set (name <$> templates template_set)
  ∧ total_on template_set alloc.
Proof.
  unfold optimal_alloc.
  set (Inv := fun (done todo : list Template) (cur : Allocation) =>
    templateset cur = template_set
    ∧ dom (mapping cur) = list_to_set (name <$> templates template_set)
    ∧ total_on template_set cur).
  match goal with
  | |- for_state ?body ?s ?l = _ → _ =>
      destruct (for_state_split_inv Inv body s l) as (s' & Hrun & Hinv)
  end.
  - split; [done|]. split.
    + simpl. rewrite initial_mapping_dom. set_solver.
    + intros t Ht. simpl. rewrite initial_mapping_lookup; [by eauto|].
      right. by exists t.
  - intros done x todo cur Hl (Hts & Hdom & Htot).
    destruct (optimal_step_cases _ cur x Htot) as (new & Hnew & Hcases).
    exists new. split; [exact Hnew|].
    assert (Hx : name x ∈ dom (mapping cur)).
    { rewrite Hdom, elem_of_list_to_set, list_elem_of_fmap. exists x.
      split; [done|]. rewrite Hl. apply elem_of_app. right. left. }
    destruct Hcases as [[_ ->]|[(_ & _ & ->)|(_ & _ & ->)]];
      (split; [done|]);
      (split; [simpl; rewrite !dom_insert_L; set_solver|]);
      by repeat apply total_on_set_mapping.
  - intros Hrun'. rewrite Hrun in Hrun'. by injection Hrun' as <-.
Qed.

(** X18. When the allocation that maps every template to READ_COMMITTED is
    robust, [optimal_alloc] returns it: every template ends at
    READ_COMMITTED. *)
Theorem optimal_alloc_all_read_committed template_set lowest alloc :
  (∀ t, t ∈ templates template_set →
        mapping lowest !! name t = Some READ_COMMITTED) →
  is_robust set_iter template_set lowest = Ok (true, []) →
  optimal_alloc set_iter template_set = Ok alloc →
  ∀ t, t ∈ templates template_set →
       mapping alloc !! name t = Some READ_COMMITTED.
Proof.
  intros Hrc Hrob. unfold optimal_alloc.
  assert (Hlow : total_on template_set lowest)
    by (intros t Ht; rewrite Hrc by done; eauto).
  assert (Hup : ∀ B, total_on template_set B →
                     is_robust set_iter template_set B = Ok (true, [])).
  { intros B HB. apply (is_robust_true_up _ lowest); [done..| |done].
    intros t la lb Ht Hla _. rewrite Hrc in Hla by done.
    injection Hla as <-. apply level_le_read_committed. }
  set (Inv := fun (done todo : list Template) (cur : Allocation) =>
    total_on template_set cur
    ∧ ∀ t, t ∈ done → mapping cur !! name t = Some READ_COMMITTED).
  match goal with
  | |- for_state ?body ?s ?l = _ → _ =>
      destruct (for_state_split_inv Inv body s l) as (s' & Hrun & Hinv)
  end.
  - split; [|by intros t Ht%elem_of_nil].
    intros t Ht. simpl. rewrite initial_mapping_lookup; [by eauto|].
    right. by exists t.
  - intros done x todo cur Hl (Htot & Hdone).
    destruct (optimal_step_cases _ cur x Htot) as (new & Hnew & Hcases).
    exists new. split; [exact Hnew|].
    destruct Hcases as [[[w Hf] _]|[(_ & [w Hf] & _)|(_ & _ & ->)]].
    + rewrite Hup in Hf by by apply total_on_set_mapping. done.
    + rewrite Hup in Hf by by repeat apply total_on_set_mapping. done.
    + split; [by repeat apply total_on_set_mapping|].
      intros t Ht. simpl. rewrite lookup_insert. case_decide; [done|].
      rewrite lookup_insert. case_decide; [done|].
      apply elem_of_app in Ht as [Ht|Ht%list_elem_of_singleton];
        [by apply Hdone|by subst t].
  - intros Hrun'. rewrite Hrun in Hrun'. injection Hrun' as <-.
    by apply Hinv.
Qed.

(** X19. In a set of templates with distinct names, the allocation
    [optimal_alloc] returns is minimal for each template: lowering the
    level of any one template, and leaving the others, gives an allocation
    on which [is_robust] answers [False]. *)
Theorem optimal_alloc_locally_minimal template_set alloc :
  NoDup (name <$> templates template_set) →
  optimal_alloc set_iter template_set = Ok alloc →
  ∀ t l l', t ∈ templates template_set →
    mapping alloc !! name t = Some l → level_lt l' l →
    ∃ w, is_robust set_iter template_set (set_mapping alloc t l')
         = Ok (false, w).
Proof.
  intros Hnodup. unfold optimal_alloc.
  set (Inv := fun (done todo : list Template) (cur : Allocation) =>
    total_on template_set cur
    ∧ (∀ u, u ∈ todo → mapping cur !! name u = Some SERIALIZABLE)
    ∧ ∀ t l l', t ∈ done → mapping cur !! name t = Some l →
        level_lt l' l →
        ∃ w, is_robust set_iter template_set (set_mapping cur t l')
             = Ok (false, w)).
  match goal with
  | |- for_state ?body ?s ?l = _ → _ =>
      destruct (for_state_split_inv Inv body s l) as (s' & Hrun & Hinv)
  end.
  - split; [|split; [|by intros t l l' Ht%elem_of_nil]].
    + intros t Ht. simpl. rewrite initial_mapping_lookup; [by eauto|].
      right. by exists t.
    + intros u Hu. simpl. apply initial_mapping_lookup. right. by exists u.
  - intros done x todo cur Hl (Htot & Htodo & Hdone).
    rewrite Hl, fmap_app, fmap_cons in Hnodup.
    apply NoDup_app in Hnodup as (_ & Hxd & Hnd).
    apply NoDup_cons in Hnd as [Hxt _].
    assert (Hne_done : ∀ t, t ∈ done → name t ≠ name x).
    { intros t Ht Heq. apply (Hxd (name t)).
      - apply list_elem_of_fmap. by exists t.
      - rewrite Heq. left. }
    assert (Hne_todo : ∀ u, u ∈ todo → name x ≠ name u).
    { intros u Hu Heq. apply Hxt. apply list_elem_of_fmap. by exists u. }
    assert (Hx : mapping cur !! name x = Some SERIALIZABLE)
      by (apply Htodo; left).
    destruct (optimal_step_cases _ cur x Htot) as (new & Hnew & Hcases).
    exists new. split; [exact Hnew|].
    assert (Hshape : ∃ lx,
      mapping new = <[name x := lx]> (mapping cur)
      ∧ ∀ l', level_lt l' lx →
          ∃ w, is_robust set_iter template_set
                 (mkAllocation (templateset cur)
                    (<[name x := l']> (mapping cur))) = Ok (false, w)).
    { destruct Hcases as [[[w Hf] ->]|[(_ & [w Hf] & ->)|(_ & _ & ->)]].
      - exists SERIALIZABLE. simpl. rewrite insert_insert_eq.
        split; [done|]. intros l' Hl'.
        eapply (is_robust_false_down _ _ _ _ _ _ _ Hf). Unshelve.
        + intros t Ht. simpl. rewrite lookup_insert.
          case_decide; [by eauto|by apply Htot].
        + by apply total_on_set_mapping.
        + simpl. by apply mapping_le_insert, level_lt_serializable.
      - exists SNAPSHOT_ISOLATION. simpl. rewrite !insert_insert_eq.
        split; [done|]. intros l' ->%level_lt_snapshot.
        exists w. rewrite <- Hf. apply is_robust_mapping_eq. simpl.
        by rewrite insert_insert_eq.
      - exists READ_COMMITTED. simpl. rewrite !insert_insert_eq.
        split; [done|]. by intros l' Hl'%level_lt_read_committed. }
    destruct Hshape as (lx & Hmap & Hlower).
    assert (Htot' : total_on template_set new).
    { intros t Ht. rewrite Hmap, lookup_insert.
      case_decide; [by eauto|by apply Htot]. }
    split; [done|]. split.
    + intros u Hu. rewrite Hmap, lookup_insert_ne by by apply Hne_todo.
      apply Htodo. by right.
    + intros t l l' Ht Hlt Hl'.
      apply elem_of_app in Ht as [Ht|Ht%list_elem_of_singleton].
      * rewrite Hmap, lookup_insert_ne in Hlt
          by (intros Heq; by apply (Hne_done t)).
        destruct (Hdone t l l' Ht Hlt Hl') as [w Hw].
        eapply (is_robust_false_down _ _ _ _ _ _ _ Hw). Unshelve.
        -- by apply total_on_set_mapping.
        -- by apply total_on_set_mapping.
        -- simpl. rewrite Hmap. apply mapping_le_insert_mono.
           apply mapping_le_insert_l. intros b Hb. rewrite Hx in Hb.
           injection Hb as <-. apply level_le_serializable.
      * subst t. rewrite Hmap, lookup_insert_eq in Hlt.
        injection Hlt as <-.
        destruct (Hlower l' Hl') as [w Hw]. exists w. rewrite <- Hw.
        apply is_robust_mapping_eq. simpl.
        by rewrite Hmap, insert_insert_eq.
  - intros Hrun'. rewrite Hrun in Hrun'. injection Hrun' as <-.
    intros t l l' Ht. by apply Hinv.
Qed.
End Optimizer.

Lemma optimal_alloc_domain_witness :
  ∃ alloc,
    optimal_alloc insertion_order TSupd = Ok alloc
    ∧ templateset alloc = TSupd
    ∧ dom (mapping alloc) = list_to_set (name <$> templates TSupd).
Proof.
  eexists.
  assert (Hrun : optimal_alloc insertion_order TSupd = Ok _)
    by (vm_compute; reflexivity).
  split; [exact Hrun|].
  pose proof (optimal_alloc_domain insertion_order insertion_order_elem
                TSupd _ Hrun) as (Hts & Hdom & _).
  split; [exact Hts|exact Hdom].
Defined.

Lemma optimal_alloc_all_read_committed_witness :
  is_robust insertion_order TSupd updRC = Ok (true, [])
  ∧ ∃ alloc,
      optimal_alloc insertion_order TSupd = Ok alloc
      ∧ mapping alloc !! name tUpd = Some READ_COMMITTED.
Proof.
  assert (Hrob : is_robust insertion_order TSupd updRC = Ok (true, []))
    by (vm_compute; reflexivity).
  split; [exact Hrob|]. eexists.
  assert (Hrun : optimal_alloc insertion_order TSupd = Ok _)
    by (vm_compute; reflexivity).
  split; [exact Hrun|].
  apply (optimal_alloc_all_read_committed insertion_order
           insertion_order_elem TSupd updRC _); [|exact Hrob|exact Hrun|].
  - intros t Ht. apply list_elem_of_singleton in Ht. subst t.
    vm_compute. reflexivity.
  - simpl. left.
Defined.

Lemma optimal_alloc_locally_minimal_witness :
  NoDup (name <$> templates TS1)
  ∧ ∃ alloc w,
      optimal_alloc insertion_order TS1 = Ok alloc
      ∧ mapping alloc !! name tRW = Some SERIALIZABLE
      ∧ is_robust insertion_order TS1
          (set_mapping alloc tRW SNAPSHOT_ISOLATION) = Ok (false, w).
Proof.
  assert (Hnd : NoDup (name <$> templates TS1)).
  { simpl. apply NoDup_singleton. }
  split; [exact Hnd|]. eexists.
  assert (Hrun : optimal_alloc insertion_order TS1 = Ok _)
    by (vm_compute; reflexivity).
  assert (Hl : mapping allSSI !! name tRW = Some SERIALIZABLE)
    by (vm_compute; reflexivity).
  destruct (optimal_alloc_locally_minimal insertion_order
              insertion_order_elem TS1 _ Hnd Hrun tRW SERIALIZABLE
              SNAPSHOT_ISOLATION) as [w Hw].
  - simpl. left.
  - exact Hl.
  - unfold level_lt. simpl. lia.
  - exists w. split; [exact Hrun|]. split; [exact Hl|exact Hw].
Defined.

Lemma is_edge_valid_shape_witness :
  is_edge_valid (mkGraphNode tRW opR N OUT) (mkGraphNode tRW opW N IN) 2
  = true
  ∧ is_conflicting opR opW = true.
Proof.
  assert (Hv : is_edge_valid (mkGraphNode tRW opR N OUT)
                 (mkGraphNode tRW opW N IN) 2 = true)
    by (vm_compute; reflexivity).
  split; [exact Hv|].
  destruct (proj1 (is_edge_valid_shape (mkGraphNode tRW opR N OUT)
                     (mkGraphNode tRW opW N IN) 2) Hv)
    as [(_ & _ & _ & Hc)|(Hk & _)]; [exact Hc|discriminate Hk].
Defined.

Lemma is_edge_valid_h_witness :
  is_edge_valid (mkGraphNode tRW opR O IN) (mkGraphNode tRW opR P OUT) 3
  = is_edge_valid (mkGraphNode tRW opR O IN) (mkGraphNode tRW opR P OUT) 2.
Proof.
  apply (proj1 (is_edge_valid_h (mkGraphNode tRW opR O IN)
                  (mkGraphNode tRW opR P OUT) 3)).
  discriminate.
Defined.

(** ** READ_COMMITTED and the operations after o1 *)

Lemma for_each_stop {A R} (body : A → Result (Ctl R)) pre x post :
  body x ≠ Ok Next →
  for_each body (pre ++ x :: post)%list = for_each body (pre ++ [x])%list.
Proof.
  intros Hx. induction pre as [|y pre IH]; simpl.
  - by destruct (body x) as [[| |r]|e].
  - by destruct (body y) as [[| |r]|e].
Qed.

(** X20. Under READ_COMMITTED only the prefix of t1 up to o1 counts: when
    allocation[t1] is READ_COMMITTED, [is_valid_cycle] gives the same answer
    for t1 and for the template of the same name whose operations end at
    that occurrence of o1. *)
Theorem is_valid_cycle_read_committed_prefix
    t1 t1' pre post o1 p1 t2 o2 p2 co2 tn on pn cpn h alloc :
  mapping alloc !! name t1 = Some READ_COMMITTED →
  name t1' = name t1 →
  operations t1 = (pre ++ o1 :: post)%list →
  operations t1' = (pre ++ [o1])%list →
  is_valid_cycle t1 o1 p1 t2 o2 p2 co2 tn on pn cpn h alloc
  = is_valid_cycle t1' o1 p1 t2 o2 p2 co2 tn on pn cpn h alloc.
Proof.
  intros Hrc Hname Hops Hops'.
  assert (Hrc' : mapping alloc !! name t1' = Some READ_COMMITTED)
    by by rewrite Hname.
  assert (L : lookup_mapping alloc t1' = lookup_mapping alloc t1)
    by (unfold lookup_mapping; by rewrite Hname).
  assert (H23 :
    condition_2_3 t1 o1 p1 t2 o2 p2 co2 tn on pn cpn h alloc
    = condition_2_3 t1' o1 p1 t2 o2 p2 co2 tn on pn cpn h alloc).
  { unfold condition_2_3.
    rewrite (mapping_is_Some _ t1 READ_COMMITTED) by done.
    rewrite (mapping_is_Some _ t1' READ_COMMITTED) by done.
    rewrite Hops, Hops'. apply for_each_stop.
    destruct (get_connectedness o1 o1 O p1 P h) as [cs|e]; simpl; [|done].
    rewrite (bool_decide_eq_true_2 (o1 = o1)) by done.
    simpl. destruct (bool_decide (N ∉ cs)); simpl; [|done].
    destruct (connected_scan is_ww_conflicting o1 cs t2 o2 co2 p2 O h)
      as [[b|]|e]; simpl; try done.
    by destruct (connected_scan is_ww_conflicting o1 cs tn on P pn cpn h)
      as [[b|]|e]. }
  assert (H5 : condition_5 t1 o1 p1 on alloc
               = condition_5 t1' o1 p1 on alloc).
  { unfold condition_5. rewrite L.
    destruct (negb (is_rw_conflicting on p1)); [|done].
    destruct (lookup_mapping alloc t1); simpl; [|done].
    case_bool_decide; [done|].
    rewrite Hops, Hops'. apply for_each_stop.
    case_bool_decide; [done|]. by rewrite bool_decide_eq_true_2. }
  assert (H78 : ∀ conflict t o co p cp,
    condition_7_8 conflict t1 o1 p1 t o co p cp h alloc
    = condition_7_8 conflict t1' o1 p1 t o co p cp h alloc).
  { intros. unfold condition_7_8.
    rewrite (mapping_is_Some _ t1 READ_COMMITTED) by done.
    by rewrite (mapping_is_Some _ t1' READ_COMMITTED) by done. }
  unfold is_valid_cycle. rewrite H23, H5, !H78.
  unfold condition_6, mapping_is. by rewrite L.
Qed.

Lemma is_valid_cycle_read_committed_prefix_witness :
  mapping allRC !! name tRW = Some READ_COMMITTED
  ∧ is_valid_cycle tRW opR opW tRW opR opW N tRW opR opR P 1 allRC
    = is_valid_cycle tRWcut opR opW tRW opR opW N tRW opR opR P 1 allRC.
Proof.
  assert (Hrc : mapping allRC !! name tRW = Some READ_COMMITTED)
    by (vm_compute; reflexivity).
  split; [exact Hrc|].
  exact (is_valid_cycle_read_committed_prefix tRW tRWcut [] [opW] opR opW
           tRW opR opW N tRW opR opR P 1 allRC Hrc eq_refl eq_refl eq_refl).
Defined.
